(** * The upsd input plugin (plugins/inputs/upsd/upsd.go)

    A shallow embedding of the polling-and-normalisation code of the
    plugin: the status decoder [mapStatus], the metric builder
    [gatherUps], the connection life cycle [fetchVariables] and the poll
    cycle [Gather], together with the parts of Go's [strings], [fmt] and
    [unicode/utf8] packages they rely on. *)

From Stdlib Require Import ZArith List Ascii String Lia Permutation.
From stdpp Require Import base option list gmap strings pretty.

Open Scope string_scope.
Open Scope list_scope.
Open Scope Z_scope.

(** ** Go strings

    A Go string is a sequence of bytes; we use [string], whose characters
    are the 256 values of [ascii]. *)

Module GoStrings.

Definition byte_val (b : ascii) : Z := Z.of_N (N_of_ascii b).

(** [asciiSpace] of package strings: the table
    ['\t': 1, '\n': 1, '\v': 1, '\f': 1, '\r': 1, ' ': 1]. *)
Definition asciiSpace (b : ascii) : bool :=
  let c := byte_val b in
  (c =? 9) || (c =? 10) || (c =? 11) || (c =? 12) || (c =? 13) || (c =? 32).

(** *** unicode/utf8: decoding one rune *)

Definition RuneError : Z := 65533.
Definition RuneSelf : Z := 128.

(** The continuation-byte window [locb, hicb]. *)
Definition locb : Z := 128.
Definition hicb : Z := 191.

(** [first] and [acceptRanges] of package utf8, merged: for a leading byte
    the size of the encoding and the window accepted for the second byte;
    [None] for the bytes that cannot start a multi-byte encoding. *)
Definition first (b0 : Z) : option (nat * Z * Z) :=
  if (194 <=? b0) && (b0 <=? 223) then Some (2%nat, locb, hicb)
  else if b0 =? 224 then Some (3%nat, 160, hicb)
  else if (225 <=? b0) && (b0 <=? 236) then Some (3%nat, locb, hicb)
  else if b0 =? 237 then Some (3%nat, locb, 159)
  else if (238 <=? b0) && (b0 <=? 239) then Some (3%nat, locb, hicb)
  else if b0 =? 240 then Some (4%nat, 144, hicb)
  else if (241 <=? b0) && (b0 <=? 243) then Some (4%nat, locb, hicb)
  else if b0 =? 244 then Some (4%nat, locb, 143)
  else None.

Definition in_window (lo hi b : Z) : bool := (lo <=? b) && (b <=? hi).

Definition mask2 : Z := 31.
Definition mask3 : Z := 15.
Definition mask4 : Z := 7.
Definition maskx : Z := 63.

(** [utf8.DecodeRuneInString]: the rune at the head of a non-empty string
    and the number of bytes it takes; an invalid or truncated encoding is
    [RuneError] of width 1. *)
Definition DecodeRuneInString (b0 : ascii) (rest : string) : Z * nat :=
  let x0 := byte_val b0 in
  if x0 <? RuneSelf then (x0, 1%nat)
  else match first x0 with
  | None => (RuneError, 1%nat)
  | Some (sz, lo, hi) =>
    match rest with
    | EmptyString => (RuneError, 1%nat)
    | String b1 rest1 =>
      let x1 := byte_val b1 in
      if negb (in_window lo hi x1) then (RuneError, 1%nat)
      else if (sz <=? 2)%nat
      then (Z.lor (Z.shiftl (Z.land x0 mask2) 6) (Z.land x1 maskx), 2%nat)
      else match rest1 with
      | EmptyString => (RuneError, 1%nat)
      | String b2 rest2 =>
        let x2 := byte_val b2 in
        if negb (in_window locb hicb x2) then (RuneError, 1%nat)
        else if (sz <=? 3)%nat
        then (Z.lor (Z.lor (Z.shiftl (Z.land x0 mask3) 12)
                           (Z.shiftl (Z.land x1 maskx) 6))
                    (Z.land x2 maskx), 3%nat)
        else match rest2 with
        | EmptyString => (RuneError, 1%nat)
        | String b3 _ =>
          let x3 := byte_val b3 in
          if negb (in_window locb hicb x3) then (RuneError, 1%nat)
          else (Z.lor (Z.lor (Z.lor (Z.shiftl (Z.land x0 mask4) 18)
                                    (Z.shiftl (Z.land x1 maskx) 12))
                             (Z.shiftl (Z.land x2 maskx) 6))
                      (Z.land x3 maskx), 4%nat)
        end
      end
    end
  end.

(** [for end, rune := range s]: the runes of [s] in order, each with the
    bytes it was decoded from. The recursion skips one to four bytes. *)
Fixpoint runes (s : string) : list (Z * string) :=
  match s with
  | EmptyString => []
  | String b0 r0 =>
    match DecodeRuneInString b0 r0 with
    | (r, 4%nat) =>
      match r0 with
      | String b1 (String b2 (String b3 r3)) =>
        (r, String b0 (String b1 (String b2 (String b3 EmptyString)))) :: runes r3
      | _ => (r, String b0 EmptyString) :: runes r0
      end
    | (r, 3%nat) =>
      match r0 with
      | String b1 (String b2 r2) =>
        (r, String b0 (String b1 (String b2 EmptyString))) :: runes r2
      | _ => (r, String b0 EmptyString) :: runes r0
      end
    | (r, 2%nat) =>
      match r0 with
      | String b1 r1 => (r, String b0 (String b1 EmptyString)) :: runes r1
      | _ => (r, String b0 EmptyString) :: runes r0
      end
    | (r, _) => (r, String b0 EmptyString) :: runes r0
    end
  end.

(** *** unicode.IsSpace *)

(** The [White_Space] range table beyond Latin-1. *)
Definition White_Space_above_Latin1 (r : Z) : bool :=
  (r =? 5760) || in_window 8192 8202 r || in_window 8232 8233 r
  || (r =? 8239) || (r =? 8287) || (r =? 12288).

Definition MaxLatin1 : Z := 255.

Definition IsSpace (r : Z) : bool :=
  if r <=? MaxLatin1
  then (r =? 9) || (r =? 10) || (r =? 11) || (r =? 12) || (r =? 13)
       || (r =? 32) || (r =? 133) || (r =? 160)
  else White_Space_above_Latin1 r.

(** *** strings.FieldsFunc and strings.Fields *)

(** The loop of [FieldsFunc] over the decoded runes. [cur] is the span
    being built ([start >= 0] in the source), [None] between fields. *)
Fixpoint fieldsLoop (f : Z → bool) (rs : list (Z * string))
    (cur : option string) : list string :=
  match rs with
  | [] => match cur with Some w => [w] | None => [] end
  | (r, bs) :: rs' =>
    if f r
    then match cur with
         | Some w => w :: fieldsLoop f rs' None
         | None => fieldsLoop f rs' None
         end
    else match cur with
         | Some w => fieldsLoop f rs' (Some (w +:+ bs))
         | None => fieldsLoop f rs' (Some bs)
         end
  end.

Definition FieldsFunc (s : string) (f : Z → bool) : list string :=
  fieldsLoop f (runes s) None.

(** The ASCII fast path of [Fields], a loop over the bytes. *)
Fixpoint fieldsASCII (s : string) (cur : option string) : list string :=
  match s with
  | EmptyString => match cur with Some w => [w] | None => [] end
  | String b s' =>
    if asciiSpace b
    then match cur with
         | Some w => w :: fieldsASCII s' None
         | None => fieldsASCII s' None
         end
    else match cur with
         | Some w => fieldsASCII s' (Some (w +:+ String b EmptyString))
         | None => fieldsASCII s' (Some (String b EmptyString))
         end
  end.

(** [setBits]: the bitwise or of all bytes of the string. *)
Fixpoint setBits (s : string) : Z :=
  match s with
  | EmptyString => 0
  | String b s' => Z.lor (byte_val b) (setBits s')
  end.

Definition Fields (s : string) : list string :=
  if RuneSelf <=? setBits s
  then FieldsFunc s IsSpace
  else fieldsASCII s None.

End GoStrings.

Import GoStrings.

(** ** The plugin *)

Module Upsd.

(** *** Dynamically typed values

    The dynamic types an [interface{}] holds in this plugin: the values
    of [nut.Variable] (string, int64, float64, bool), the [uint64] status
    word, and the nil interface that indexing a map yields for an absent
    key. The plugin never computes with a float64, it only stores and
    prints it, so a float64 is carried as its [%v] text. *)
Inductive iface : Type :=
| VNil
| VString (s : string)
| VInt64 (n : Z)
| VUint64 (n : Z)
| VFloat64 (text : string)
| VBool (b : bool).

#[global] Instance iface_eq_dec : EqDecision iface.
Proof. solve_decision. Defined.

(** [fmt.Sprintf("%v", v)]. *)
Definition Sprintf_v (v : iface) : string :=
  match v with
  | VNil => "<nil>"
  | VString s => s
  | VInt64 n => pretty n
  | VUint64 n => pretty n
  | VFloat64 text => text
  | VBool true => "true"
  | VBool false => "false"
  end.

(** The type assertion [v.(int64)] in its two-result form: the zero value
    and [false] when the dynamic type is another one. *)
Definition assert_int64 (v : iface) : Z * bool :=
  match v with
  | VInt64 n => (n, true)
  | _ => (0, false)
  end.

(** Multiplication of two [int64] wraps around. *)
Definition wrap_int64 (z : Z) : Z := (z + 2 ^ 63) `mod` 2 ^ 64 - 2 ^ 63.
Definition mul_int64 (a b : Z) : Z := wrap_int64 (a * b).

(** [m[k]] on a [map[string]interface{}]: nil for an absent key. *)
Definition index (m : gmap string iface) (k : string) : iface :=
  default VNil (m !! k).

(** *** Errors *)

Inductive error : Type :=
| errorString (msg : string)
| wrapError (msg : string) (err : error).

Definition Error (e : error) : string :=
  match e with
  | errorString msg => msg
  | wrapError msg _ => msg
  end.

Definition Unwrap (e : error) : option error :=
  match e with
  | errorString _ => None
  | wrapError _ err => Some err
  end.

(** [fmt.Errorf(prefix + "%w", err)]. *)
Definition Errorf_w (prefix : string) (err : error) : error :=
  wrapError (prefix +:+ Error err) err.

(** *** The NUT client (package go.nut), an external collaborator *)

(** [nut.Variable] and [nut.UPS], with the fields the plugin reads. *)
Record NutVariable : Type := { Name : string; Value : iface }.

Record NutUPS : Type := { UPS_Name : string; UPS_Variables : list NutVariable }.

(** What the server answers during one poll cycle. [None] stands for a
    nil error. *)
Record NutServer : Type := {
  Connect_reply : string → Z → Z → option error;
  Authenticate_reply : string → string → option error;
  GetUPSList_reply : list NutUPS + error
}.

(** *** Observable effects, in the order they happen *)

Inductive Event : Type :=
| EvConnect (server : string) (connectTimeout opTimeout : Z)
| EvAuthenticate (username password : string)
| EvGetUPSList
| EvDisconnect
| EvWarnf (msg : string)
| EvAddFields (measurement : string) (fields : gmap string iface)
    (tags : gmap string string).

#[global] Instance Event_eq_dec : EqDecision Event.
Proof. solve_decision. Defined.

(** *** The collector *)

(** The fields of [Upsd]; the calls on its [Log] are events. *)
Record Upsd : Type := {
  Server : string;
  Username : string;
  Password : string;
  OpTimeout : Z;
  ConnectionTimeout : Z;
  batteryRuntimeTypeWarningIssued : bool
}.

Definition set_batteryRuntimeTypeWarningIssued (u : Upsd) (b : bool) : Upsd :=
  {| Server := Server u; Username := Username u; Password := Password u;
     OpTimeout := OpTimeout u; ConnectionTimeout := ConnectionTimeout u;
     batteryRuntimeTypeWarningIssued := b |}.

Definition defaultAddress : string := "127.0.0.1".
Definition Second : Z := 1000000000.
Definition defaultConnectTimeout : Z := 10 * Second.
Definition defaultOpTimeout : Z := 10 * Second.

(** The collector that [init] registers; the fields it does not name have
    their zero values. *)
Definition new_Upsd : Upsd :=
  {| Server := defaultAddress; Username := EmptyString; Password := EmptyString;
     OpTimeout := defaultOpTimeout; ConnectionTimeout := defaultConnectTimeout;
     batteryRuntimeTypeWarningIssued := false |}.

(** Modelled from the spec: [choice.Contains] of package internal/choice,
    which the source calls and does not define: the token is present in
    the split set. Written as the linear search over the slice. *)
Fixpoint Contains (choice : string) (choices : list string) : bool :=
  match choices with
  | [] => false
  | item :: rest => if String.eqb item choice then true else Contains choice rest
  end.

Definition mapStatus (metrics : gmap string iface) (tags : gmap string string)
  : Z * gmap string string :=
  let status := 0 in
  let statusString := Sprintf_v (index metrics "ups.status") in
  let statuses := Fields statusString in
  let '(status, tags) :=
    if Contains "CAL" statuses
    then (Z.lor status (Z.shiftl 1 0), <["status_CAL" := "true"]> tags)
    else (status, tags) in
  let '(status, tags) :=
    if Contains "TRIM" statuses
    then (Z.lor status (Z.shiftl 1 1), <["status_TRIM" := "true"]> tags)
    else (status, tags) in
  let '(status, tags) :=
    if Contains "BOOST" statuses
    then (Z.lor status (Z.shiftl 1 2), <["status_BOOST" := "true"]> tags)
    else (status, tags) in
  let '(status, tags) :=
    if Contains "OL" statuses
    then (Z.lor status (Z.shiftl 1 3), <["status_OL" := "true"]> tags)
    else (status, tags) in
  let '(status, tags) :=
    if Contains "OB" statuses
    then (Z.lor status (Z.shiftl 1 4), <["status_OB" := "true"]> tags)
    else (status, tags) in
  let '(status, tags) :=
    if Contains "OVER" statuses
    then (Z.lor status (Z.shiftl 1 5), <["status_OVER" := "true"]> tags)
    else (status, tags) in
  let '(status, tags) :=
    if Contains "LB" statuses
    then (Z.lor status (Z.shiftl 1 6), <["status_LB" := "true"]> tags)
    else (status, tags) in
  let '(status, tags) :=
    if Contains "RB" statuses
    then (Z.lor status (Z.shiftl 1 7), <["status_RB" := "true"]> tags)
    else (status, tags) in
  (status, tags).

(** The first loop of [gatherUps]: the variables keyed by name. *)
Definition normalize (variables : list NutVariable) : gmap string iface :=
  foldl (λ metrics variable, <[Name variable := Value variable]> metrics)
        ∅ variables.

(** The tag literal of [gatherUps]. *)
Definition baseTags (name : string) (metrics : gmap string iface)
  : gmap string string :=
  <["model" := Sprintf_v (index metrics "device.model")]>
  (<["ups_name" := name]>
  (<["serial" := Sprintf_v (index metrics "device.serial")]> ∅)).

(** The field literal of [gatherUps]. *)
Definition buildFields (status timeLeftS : Z) (metrics : gmap string iface)
  : gmap string iface :=
  <["battery_date" := index metrics "battery.mfr.date"]>
  (<["firmware" := index metrics "ups.firmware"]>
  (<["nominal_power" := index metrics "ups.realpower.nominal"]>
  (<["nominal_battery_voltage" := index metrics "battery.voltage.nominal"]>
  (<["nominal_input_voltage" := index metrics "input.voltage.nominal"]>
  (<["input_frequency" := index metrics "input.frequency"]>
  (<["battery_voltage" := index metrics "battery.voltage"]>
  (<["internal_temp" := index metrics "ups.temperature"]>
  (<["output_voltage" := index metrics "output.voltage"]>
  (<["time_left_ns" := VInt64 (mul_int64 timeLeftS 1000000000)]>
  (<["battery_charge_percent" := index metrics "battery.charge"]>
  (<["load_percent" := index metrics "ups.load"]>
  (<["input_voltage" := index metrics "input.voltage"]>
  (<["ups.status" := index metrics "ups.status"]>
  (<["status_flags" := VUint64 status]> ∅)))))))))))))).

Definition runtimeWarning : string := "'battery.runtime' type is not int64".

(** [gatherUps] returns the collector as the call leaves it and the
    events of the call. *)
Definition gatherUps (u : Upsd) (name : string) (variables : list NutVariable)
  : Upsd * list Event :=
  let metrics := normalize variables in
  let tags := baseTags name metrics in
  let '(status, tags) := mapStatus metrics tags in
  let '(timeLeftS, ok) := assert_int64 (index metrics "battery.runtime") in
  let '(u, warned) :=
    if negb ok && negb (batteryRuntimeTypeWarningIssued u)
    then (set_batteryRuntimeTypeWarningIssued u true, [EvWarnf runtimeWarning])
    else (u, []) in
  let fields := buildFields status timeLeftS metrics in
  (u, warned ++ [EvAddFields "upsd" fields tags]).

(** The last loop of [fetchVariables]: the devices keyed by name. *)
Definition collect (upsList : list NutUPS) : gmap string (list NutVariable) :=
  foldl (λ result ups, <[UPS_Name ups := UPS_Variables ups]> result)
        ∅ upsList.

(** [fetchVariables]. The deferred [client.Disconnect()] is registered
    after the three early returns and runs when the function returns. *)
Definition fetchVariables (u : Upsd) (srv : NutServer) (server : string)
  : list Event * (gmap string (list NutVariable) + error) :=
  let connected := [EvConnect server (ConnectionTimeout u) (OpTimeout u)] in
  match Connect_reply srv server (ConnectionTimeout u) (OpTimeout u) with
  | Some err => (connected, inr (Errorf_w "connect: " err))
  | None =>
    let '(authed, err) :=
      if negb (String.eqb (Username u) EmptyString)
         && negb (String.eqb (Password u) EmptyString)
      then ([EvAuthenticate (Username u) (Password u)],
            Authenticate_reply srv (Username u) (Password u))
      else ([], None) in
    match err with
    | Some err => (connected ++ authed, inr (Errorf_w "auth: " err))
    | None =>
      match GetUPSList_reply srv with
      | inr err =>
        (connected ++ authed ++ [EvGetUPSList], inr (Errorf_w "getupslist: " err))
      | inl upsList =>
        let result := collect upsList in
        (connected ++ authed ++ [EvGetUPSList] ++ [EvDisconnect], inl result)
      end
    end
  end.

(** The order in which [range] walks a map is not specified; it is a
    parameter, [range_ok] when it visits every entry once. *)
Definition RangeOrder : Type :=
  gmap string (list NutVariable) → list (string * list NutVariable).

Definition range_ok (range : RangeOrder) : Prop :=
  ∀ m, range m ≡ₚ map_to_list m.

(** The loop of [Gather] over the devices in the order given. *)
Fixpoint gatherAll (u : Upsd) (devices : list (string * list NutVariable))
  : Upsd * list Event :=
  match devices with
  | [] => (u, [])
  | (name, variables) :: rest =>
    let '(u, evs) := gatherUps u name variables in
    let '(u, evs') := gatherAll u rest in
    (u, evs ++ evs')
  end.

Definition Gather (range : RangeOrder) (u : Upsd) (srv : NutServer)
  : Upsd * list Event * option error :=
  match fetchVariables u srv (Server u) with
  | (evs, inr err) => (u, evs, Some err)
  | (evs, inl upsList) =>
    let '(u, evs') := gatherAll u (range upsList) in
    (u, evs ++ evs', None)
  end.

(** A sequence of poll cycles on one collector. *)
Fixpoint poll (u : Upsd) (cycles : list (RangeOrder * NutServer))
  : Upsd * list Event :=
  match cycles with
  | [] => (u, [])
  | (range, srv) :: rest =>
    let '(u, evs, _) := Gather range u srv in
    let '(u, evs') := poll u rest in
    (u, evs ++ evs')
  end.

End Upsd.

Import Upsd.

(** ** The status table, as the specification words it *)

Module StatusTable.

(** The recognised tokens; the position in the list is the bit. *)
Definition statusTokens : list string :=
  ["CAL"; "TRIM"; "BOOST"; "OL"; "OB"; "OVER"; "LB"; "RB"].

Definition tagName (token : string) : string := "status_" +:+ token.

Definition statusTagNames : list string := tagName <$> statusTokens.

(** The static ordered table of (token, bit) pairs. *)
Definition statusTable : list (string * Z) :=
  [("CAL", 0); ("TRIM", 1); ("BOOST", 2); ("OL", 3);
   ("OB", 4); ("OVER", 5); ("LB", 6); ("RB", 7)].

Definition decodeStep (statuses : list string)
    (acc : Z * gmap string string) (entry : string * Z)
  : Z * gmap string string :=
  if Contains entry.1 statuses
  then (Z.lor acc.1 (Z.shiftl 1 entry.2), <[tagName entry.1 := "true"]> acc.2)
  else acc.

(** The decoder that walks the table in its fixed order. *)
Definition decodeTable (statuses : list string) (tags : gmap string string)
  : Z * gmap string string :=
  foldl (decodeStep statuses) (0, tags) statusTable.

(** The status string of a normalised mapping. *)
Definition statusString (metrics : gmap string iface) : string :=
  Sprintf_v (index metrics "ups.status").

End StatusTable.

Import StatusTable.

(** ** Reading a trace and a variable list *)

Module Observe.

(** The records the sink received, in order. *)
Definition emitted (evs : list Event)
  : list (string * gmap string iface * gmap string string) :=
  omap (λ ev, match ev with
              | EvAddFields measurement fields tags =>
                Some (measurement, fields, tags)
              | _ => None
              end) evs.

(** The warnings the log received, in order. *)
Definition warnings (evs : list Event) : list string :=
  omap (λ ev, match ev with EvWarnf msg => Some msg | _ => None end) evs.

(** How often the connection was released. *)
Definition disconnects (evs : list Event) : nat :=
  length (filter (λ ev, ev = EvDisconnect) evs).

(** The events of the log and of the sink, without those of the network. *)
Definition is_local (ev : Event) : bool :=
  match ev with
  | EvWarnf _ | EvAddFields _ _ _ => true
  | _ => false
  end.

Definition local (evs : list Event) : list Event :=
  List.filter is_local evs.

(** The value a device reports under a name: that of the last variable
    of that name, if there is one. *)
Definition lastValue (k : string) (variables : list NutVariable)
  : option iface :=
  Value <$> last (filter (λ v, Name v = k) variables).

(** Whether a device's battery.runtime is an int64. *)
Definition runtime_is_int64 (variables : list NutVariable) : bool :=
  (assert_int64 (index (normalize variables) "battery.runtime")).2.

(** The record [gatherUps] hands to the sink for a device. *)
Definition metricRecord (name : string) (variables : list NutVariable)
  : string * gmap string iface * gmap string string :=
  let metrics := normalize variables in
  let decoded := mapStatus metrics (baseTags name metrics) in
  ("upsd",
   buildFields decoded.1 (assert_int64 (index metrics "battery.runtime")).1
               metrics,
   decoded.2).

Definition metricEvent (name : string) (variables : list NutVariable) : Event :=
  EvAddFields (metricRecord name variables).1.1
              (metricRecord name variables).1.2
              (metricRecord name variables).2.

(** A field and a tag of each record of a trace. *)
Definition fieldOf (k : string) (evs : list Event) : list (option iface) :=
  (λ record, record.1.2 !! k) <$> emitted evs.

Definition tagOf (k : string) (evs : list Event) : list (option string) :=
  (λ record, record.2 !! k) <$> emitted evs.

(** A device, as the loop of [Gather] meets it: its name and variables. *)
Definition malformed (d : string * list NutVariable) : bool :=
  negb (runtime_is_int64 d.2).

Definition metricEventOf (d : string * list NutVariable) : Event :=
  metricEvent d.1 d.2.

(** The events up to the listing, once connect and authenticate passed. *)
Definition prelude (u : Upsd) (server : string) : list Event :=
  [EvConnect server (ConnectionTimeout u) (OpTimeout u)]
  ++ (if negb (String.eqb (Username u) EmptyString)
         && negb (String.eqb (Password u) EmptyString)
      then [EvAuthenticate (Username u) (Password u)] else [])
  ++ [EvGetUPSList].

(** The devices a sequence of cycles walks through, in order: those of
    the cycles whose listing succeeded. *)
Definition cycleDevices (u : Upsd) (cycle : RangeOrder * NutServer)
  : list (string * list NutVariable) :=
  match fetchVariables u cycle.2 (Server u) with
  | (_, inl upsList) => cycle.1 upsList
  | (_, inr _) => []
  end.

Definition encounters (u : Upsd) (cycles : list (RangeOrder * NutServer))
  : list (string * list NutVariable) :=
  concat (cycleDevices u <$> cycles).

(** A collector with credentials, a device, and three servers: one that
    rejects the credentials, one that fails to list, one that answers. *)
Definition monitor : Upsd :=
  {| Server := defaultAddress; Username := "monitor"; Password := "secret";
     OpTimeout := defaultOpTimeout; ConnectionTimeout := defaultConnectTimeout;
     batteryRuntimeTypeWarningIssued := false |}.

Definition rejecting : NutServer :=
  {| Connect_reply := λ _ _ _, None;
     Authenticate_reply := λ _ _, Some (errorString "ACCESS-DENIED");
     GetUPSList_reply := inl [] |}.

Definition unlisting : NutServer :=
  {| Connect_reply := λ _ _ _, None;
     Authenticate_reply := λ _ _, None;
     GetUPSList_reply := inr (errorString "DRIVER-NOT-CONNECTED") |}.

Definition answering (upsList : list NutUPS) : NutServer :=
  {| Connect_reply := λ _ _ _, None;
     Authenticate_reply := λ _ _, None;
     GetUPSList_reply := inl upsList |}.

Definition unreachable : NutServer :=
  {| Connect_reply := λ _ _ _, Some (errorString "connection refused");
     Authenticate_reply := λ _ _, None;
     GetUPSList_reply := inl [] |}.

Definition var (name : string) (value : iface) : NutVariable :=
  {| Name := name; Value := value |}.

Definition twoDevices : list NutUPS :=
  [ {| UPS_Name := "rack"; UPS_Variables :=
         [var "ups.status" (VString "OL"); var "battery.runtime" (VInt64 120)] |};
    {| UPS_Name := "desk"; UPS_Variables :=
         [var "ups.status" (VString "OB LB");
          var "battery.runtime" (VString "unknown")] |} ].

End Observe.

Import Observe.

(** ** Laying words out with white space *)

Module Layout.

(** Every byte of the string passes the test. *)
Fixpoint allBytes (p : ascii → bool) (s : string) : bool :=
  match s with
  | EmptyString => true
  | String b s' => p b && allBytes p s'
  end.

Definition isASCII (b : ascii) : bool := byte_val b <? RuneSelf.

(** A run of ASCII white space, possibly empty. *)
Definition spaces (s : string) : Prop := allBytes asciiSpace s = true.

(** A word: a non-empty run of ASCII bytes that are not white space. *)
Definition word (s : string) : Prop :=
  s ≠ EmptyString ∧ allBytes (λ b, isASCII b && negb (asciiSpace b)) s = true.

(** Each byte of an ASCII string taken as a rune of its own. *)
Fixpoint singles (s : string) : list (Z * string) :=
  match s with
  | EmptyString => []
  | String b s' => (byte_val b, String b EmptyString) :: singles s'
  end.

(** Words laid out with white space before, between and after them. *)
Fixpoint layout (lead : string) (items : list (string * string)) : string :=
  match items with
  | [] => lead
  | (w, sep) :: rest => lead +:+ w +:+ layout sep rest
  end.

(** Every separator but the last is non-empty. *)
Fixpoint separated (items : list (string * string)) : Prop :=
  match items with
  | [] => True
  | (_, sep) :: rest =>
    match rest with
    | [] => True
    | _ :: _ => sep ≠ EmptyString ∧ separated rest
    end
  end.

Definition laid_out (lead : string) (items : list (string * string)) : Prop :=
  spaces lead
  ∧ Forall (λ item, word item.1 ∧ spaces item.2) items
  ∧ separated items.

End Layout.

Import Layout.

(** ** Tables read off the source *)

Module Survey.

(** The renaming in the field literal of [gatherUps]: the field of the
    record and the variable of the device it is taken from. *)
Definition passThrough : list (string * string) :=
  [("ups.status", "ups.status");
   ("input_voltage", "input.voltage");
   ("load_percent", "ups.load");
   ("battery_charge_percent", "battery.charge");
   ("output_voltage", "output.voltage");
   ("internal_temp", "ups.temperature");
   ("battery_voltage", "battery.voltage");
   ("input_frequency", "input.frequency");
   ("nominal_input_voltage", "input.voltage.nominal");
   ("nominal_battery_voltage", "battery.voltage.nominal");
   ("nominal_power", "ups.realpower.nominal");
   ("firmware", "ups.firmware");
   ("battery_date", "battery.mfr.date")].

Definition fieldNames : list string :=
  ["status_flags"; "time_left_ns"] ++ passThrough.*1.

(** The whole conversation of a cycle that succeeds. *)
Definition conversation (u : Upsd) (server : string) : list Event :=
  prelude u server ++ [EvDisconnect].

(** The variables of the last device listed under a name. *)
Definition lastDevice (name : string) (upsList : list NutUPS)
  : option (list NutVariable) :=
  UPS_Variables <$> last (filter (λ ups, UPS_Name ups = name) upsList).

(** The mask as a sum: two to the bit of every token that is present. *)
Definition weight (statuses : list string) (entry : string * Z) : Z :=
  if Contains entry.1 statuses then 2 ^ entry.2 else 0.

Definition maskSum (statuses : list string) : Z :=
  foldr Z.add 0 (weight statuses <$> statusTable).

(** Whether the value a device reports as battery.runtime is an int64. *)
Definition reports_int64 (variables : list NutVariable) : bool :=
  match lastValue "battery.runtime" variables with
  | Some (VInt64 _) => true
  | _ => false
  end.

(** A status string in two layouts. *)
Definition layoutA : string * list (string * string) :=
  (" ", [("OL", String "009" (String "010" EmptyString));
         ("LB", EmptyString)]).

Definition layoutB : string * list (string * string) :=
  (EmptyString, [("LB", " "); ("OL", "  "); ("LB", String "013" EmptyString)]).

End Survey.

Import Survey.

(** * Facts *)

(** ** Go strings *)

Lemma byte_val_range (b : ascii) : 0 ≤ byte_val b < 256.
Proof. unfold byte_val. pose proof (N_ascii_bounded b). lia. Qed.

Lemma high_bit_clear (x : Z) : 0 ≤ x → (x < RuneSelf ↔ Z.shiftr x 7 = 0).
Proof.
  intros Hx. unfold RuneSelf. rewrite Z.shiftr_div_pow2 by lia.
  change (2 ^ 7) with 128. rewrite Z.div_small_iff by lia. lia.
Qed.

Lemma setBits_nonneg (s : string) : 0 ≤ setBits s.
Proof.
  induction s as [|b s IH]; cbn [setBits]; [lia|].
  apply Z.lor_nonneg. split; [apply byte_val_range | done].
Qed.

(** The fast path is taken exactly on the strings of ASCII bytes. *)
Lemma setBits_ASCII (s : string) :
  setBits s < RuneSelf ↔ allBytes isASCII s = true.
Proof.
  induction s as [|b s IH]; cbn [setBits allBytes]; [done|].
  rewrite andb_true_iff, <- IH. unfold isASCII. rewrite Z.ltb_lt.
  pose proof (byte_val_range b). pose proof (setBits_nonneg s).
  rewrite !high_bit_clear by (try apply Z.lor_nonneg; lia).
  by rewrite Z.shiftr_lor, Z.lor_eq_0_iff.
Qed.

Lemma runes_ASCII (s : string) :
  allBytes isASCII s = true → runes s = singles s.
Proof.
  induction s as [|b s IH]; [done|]. cbn [allBytes]. intros Hb.
  apply andb_true_iff in Hb as [Hb Hs]. cbn [runes singles].
  unfold DecodeRuneInString. unfold isASCII in Hb. rewrite Hb.
  by rewrite IH.
Qed.

Lemma IsSpace_ASCII (b : ascii) :
  isASCII b = true → IsSpace (byte_val b) = asciiSpace b.
Proof.
  unfold isASCII, RuneSelf, IsSpace, asciiSpace, MaxLatin1. intros Hb.
  apply Z.ltb_lt in Hb.
  replace (byte_val b <=? 255) with true by (symmetry; apply Z.leb_le; lia).
  replace (byte_val b =? 133) with false by (symmetry; apply Z.eqb_neq; lia).
  replace (byte_val b =? 160) with false by (symmetry; apply Z.eqb_neq; lia).
  by rewrite !orb_false_r.
Qed.

Lemma fieldsLoop_singles (s : string) (cur : option string) :
  allBytes isASCII s = true →
  fieldsLoop IsSpace (singles s) cur = fieldsASCII s cur.
Proof.
  revert cur. induction s as [|b s IH]; intros cur; [done|].
  cbn [allBytes]. intros Hb. apply andb_true_iff in Hb as [Hb Hs].
  cbn [singles fieldsLoop fieldsASCII]. rewrite (IsSpace_ASCII b Hb).
  destruct (asciiSpace b), cur; by rewrite IH.
Qed.

(** The two paths of [Fields] agree: it is [FieldsFunc] with
    [unicode.IsSpace] on every string. *)
Lemma Fields_FieldsFunc (s : string) : Fields s = FieldsFunc s IsSpace.
Proof.
  unfold Fields. destruct (RuneSelf <=? setBits s) eqn:Hbits; [done|].
  apply Z.leb_gt, setBits_ASCII in Hbits.
  unfold FieldsFunc. by rewrite runes_ASCII, fieldsLoop_singles.
Qed.

Example Fields_OB_LB : Fields "OB LB" = ["OB"; "LB"].
Proof. reflexivity. Qed.

Example Fields_padded :
  Fields (String "009" (" OL" +:+ String "010" ("  RB " +:+ String "013" "x")))
  = ["OL"; "RB"; "x"].
Proof. reflexivity. Qed.

(** A no-break space (U+00A0, bytes C2 A0) separates fields as well. *)
Example Fields_nbsp :
  Fields ("OL" +:+ String "194" (String "160" "OB")) = ["OL"; "OB"].
Proof. reflexivity. Qed.

(** So do an em space (U+2003, bytes E2 80 83) and an ideographic space
    (U+3000, bytes E3 80 80). *)
Example Fields_wide_spaces :
  Fields ("OL" +:+ String "226" (String "128" (String "131"
            ("OB" +:+ String "227" (String "128" (String "128" "LB"))))))
  = ["OL"; "OB"; "LB"].
Proof. reflexivity. Qed.

(** A rune of four bytes (U+1F50B) is no white space. *)
Example runes_four_bytes :
  runes (String "240" (String "159" (String "148" (String "139" " "))))
  = [(128267, String "240" (String "159" (String "148"
                (String "139" EmptyString))));
     (32, " ")].
Proof. reflexivity. Qed.

(** A stray continuation byte is no white space and stays in its field. *)
Example Fields_invalid :
  Fields ("OL" +:+ String "160" " OB")
  = ["OL" +:+ String "160" EmptyString; "OB"].
Proof. reflexivity. Qed.

(** ** White space between words *)

Lemma append_nil_r (s : string) : s +:+ EmptyString = s.
Proof.
  induction s as [|b s IH]; [done|].
  change (String b s +:+ EmptyString) with (String b (s +:+ EmptyString)).
  by rewrite IH.
Qed.

Lemma append_assoc (s1 s2 s3 : string) :
  (s1 +:+ s2) +:+ s3 = s1 +:+ (s2 +:+ s3).
Proof.
  induction s1 as [|b s1 IH]; [done|].
  change (String b (s1 +:+ s2) +:+ s3 = String b (s1 +:+ (s2 +:+ s3))).
  change (String b ((s1 +:+ s2) +:+ s3) = String b (s1 +:+ (s2 +:+ s3))).
  by rewrite IH.
Qed.

Lemma allBytes_app (p : ascii → bool) (s1 s2 : string) :
  allBytes p (s1 +:+ s2) = allBytes p s1 && allBytes p s2.
Proof.
  induction s1 as [|b s1 IH]; [done|].
  change (String b s1 +:+ s2) with (String b (s1 +:+ s2)).
  cbn [allBytes]. by rewrite IH, andb_assoc.
Qed.

Lemma allBytes_impl (p q : ascii → bool) (s : string) :
  (∀ b, p b = true → q b = true) → allBytes p s = true → allBytes q s = true.
Proof.
  intros Hpq. induction s as [|b s IH]; [done|]. cbn [allBytes].
  rewrite !andb_true_iff. intros [Hb Hs]. split; [by apply Hpq | by apply IH].
Qed.

Lemma asciiSpace_ASCII (b : ascii) : asciiSpace b = true → isASCII b = true.
Proof.
  unfold asciiSpace, isASCII, RuneSelf. rewrite !orb_true_iff, !Z.eqb_eq.
  intros Hb. apply Z.ltb_lt. lia.
Qed.

Lemma fieldsASCII_spaces (sp rest : string) (cur : option string) :
  spaces sp →
  fieldsASCII (sp +:+ rest) cur
  = match cur with
    | Some w =>
      if decide (sp = EmptyString) then fieldsASCII rest (Some w)
      else w :: fieldsASCII rest None
    | None => fieldsASCII rest None
    end.
Proof.
  unfold spaces. revert cur. induction sp as [|b sp IH]; intros cur Hsp.
  - by destruct cur.
  - cbn [allBytes] in Hsp. apply andb_true_iff in Hsp as [Hb Hsp].
    change (String b sp +:+ rest) with (String b (sp +:+ rest)).
    cbn [fieldsASCII]. rewrite Hb.
    destruct cur as [w|]; rewrite (IH None Hsp); [|done].
    by rewrite decide_False.
Qed.

Lemma fieldsASCII_word (w rest : string) (cur : option string) :
  allBytes (λ b, isASCII b && negb (asciiSpace b)) w = true →
  w ≠ EmptyString →
  fieldsASCII (w +:+ rest) cur
  = fieldsASCII rest (Some (default EmptyString cur +:+ w)).
Proof.
  revert cur. induction w as [|b w IH]; intros cur Hw Hne; [done|].
  cbn [allBytes] in Hw. apply andb_true_iff in Hw as [Hb Hw].
  apply andb_true_iff in Hb as [_ Hb]. apply negb_true_iff in Hb.
  change (String b w +:+ rest) with (String b (w +:+ rest)).
  cbn [fieldsASCII]. rewrite Hb.
  destruct w as [|b' w].
  - by destruct cur.
  - destruct cur as [c|]; rewrite IH by done; cbn [from_option id]; [|done].
    by rewrite append_assoc.
Qed.

Lemma fieldsASCII_layout (lead : string) (items : list (string * string)) :
  laid_out lead items → fieldsASCII (layout lead items) None = items.*1.
Proof.
  revert lead. induction items as [|[w sep] rest IH]; intros lead.
  - intros (Hlead & _ & _). cbn [layout fmap list_fmap].
    rewrite <- (append_nil_r lead).
    by rewrite (fieldsASCII_spaces lead EmptyString None Hlead).
  - intros (Hlead & Hitems & Hsep).
    apply Forall_cons in Hitems as [[[Hne Hw] Hspaces] Hrest].
    cbn [fst snd] in *. cbn [layout fmap list_fmap fst].
    rewrite (fieldsASCII_spaces lead _ None Hlead).
    rewrite (fieldsASCII_word w _ None Hw Hne).
    change (default EmptyString None +:+ w) with w.
    destruct rest as [|[w2 sep2] rest].
    + cbn [layout fmap list_fmap].
      rewrite <- (append_nil_r sep).
      rewrite (fieldsASCII_spaces sep EmptyString (Some w) Hspaces).
      by destruct (decide (sep = EmptyString)).
    + destruct Hsep as [Hsepne Hsep].
      change (layout sep ((w2, sep2) :: rest))
        with (sep +:+ layout EmptyString ((w2, sep2) :: rest)).
      rewrite (fieldsASCII_spaces sep _ (Some w) Hspaces).
      rewrite decide_False by done. f_equal. by apply IH.
Qed.

Lemma layout_ASCII (lead : string) (items : list (string * string)) :
  laid_out lead items → allBytes isASCII (layout lead items) = true.
Proof.
  intros (Hlead & Hitems & _). revert lead Hlead.
  induction Hitems as [|[w sep] rest [[_ Hw] Hsep] _ IH]; intros lead Hlead.
  - apply (allBytes_impl asciiSpace); [apply asciiSpace_ASCII | exact Hlead].
  - cbn [layout]. rewrite !allBytes_app, !andb_true_iff. split; [|split].
    + apply (allBytes_impl asciiSpace); [apply asciiSpace_ASCII | exact Hlead].
    + revert Hw. apply allBytes_impl. intros b Hb.
      by apply andb_true_iff in Hb as [? _].
    + by apply IH.
Qed.

(** Whatever ASCII white space surrounds and separates the words, the
    fields are the words. *)
Lemma Fields_layout (lead : string) (items : list (string * string)) :
  laid_out lead items → Fields (layout lead items) = items.*1.
Proof.
  intros Hlaid. unfold Fields.
  replace (RuneSelf <=? setBits (layout lead items)) with false.
  - by apply fieldsASCII_layout.
  - symmetry. apply Z.leb_gt, setBits_ASCII. by apply layout_ASCII.
Qed.


(** ** Membership *)

Lemma Contains_spec (choice : string) (choices : list string) :
  Contains choice choices = bool_decide (choice ∈ choices).
Proof.
  induction choices as [|item rest IH].
  - symmetry. apply bool_decide_eq_false, not_elem_of_nil.
  - cbn [Contains]. destruct (String.eqb_spec item choice) as [->|Hne].
    + symmetry. apply bool_decide_eq_true. left.
    + rewrite IH. apply bool_decide_ext. rewrite elem_of_cons.
      split; [by right | intros [?|?]; [congruence | done]].
Qed.

Lemma Contains_true (choice : string) (choices : list string) :
  Contains choice choices = true ↔ choice ∈ choices.
Proof. rewrite Contains_spec. apply bool_decide_eq_true. Qed.

Lemma Contains_false (choice : string) (choices : list string) :
  Contains choice choices = false ↔ choice ∉ choices.
Proof. rewrite Contains_spec. apply bool_decide_eq_false. Qed.

Lemma Contains_same_set (c : string) (l1 l2 : list string) :
  (c ∈ l1 ↔ c ∈ l2) → Contains c l1 = Contains c l2.
Proof. intros H. rewrite !Contains_spec. by apply bool_decide_ext. Qed.

(** Membership in a list that is written out. *)
Ltac elem_of_list :=
  repeat first [ apply list_elem_of_here | apply list_elem_of_further ].

Lemma no_token_check (statuses : list string) :
  forallb (λ token, negb (Contains token statuses)) statusTokens = true →
  ∀ token, token ∈ statusTokens → token ∉ statuses.
Proof.
  intros Hall token Hin. apply Contains_false.
  rewrite forallb_forall in Hall. apply negb_true_iff, Hall.
  by apply list_elem_of_In.
Qed.

(** ** The status decoder walks the table *)

Lemma mapStatus_decodeTable (metrics : gmap string iface)
    (tags : gmap string string) :
  mapStatus metrics tags = decodeTable (Fields (statusString metrics)) tags.
Proof.
  unfold mapStatus, decodeTable, statusString, statusTable, decodeStep.
  generalize (Fields (Sprintf_v (index metrics "ups.status"))) as statuses.
  intros statuses. cbn [foldl fst snd].
  repeat (destruct (Contains _ statuses); cbn [fst snd]); reflexivity.
Qed.

(** What a walk over any table computes, bit by bit and key by key. *)
Lemma decode_fold_mask (statuses : list string) (tbl : list (string * Z))
    (st : Z) (tg : gmap string string) (i : Z) :
  Forall (λ e, 0 ≤ e.2) tbl →
  Z.testbit (foldl (decodeStep statuses) (st, tg) tbl).1 i
  = Z.testbit st i
    || existsb (λ e, Contains e.1 statuses && (e.2 =? i)) tbl.
Proof.
  intros Hpos. revert st tg.
  induction Hpos as [|[token bit] tbl Hbit _ IH]; intros st tg.
  - cbn. by rewrite orb_false_r.
  - cbn [foldl existsb]. unfold decodeStep at 2. cbn [fst snd] in *.
    destruct (Contains token statuses); cbn [andb].
    + rewrite IH, Z.lor_spec, Z.shiftl_1_l, Z.pow2_bits_eqb by done.
      by rewrite orb_assoc.
    + by rewrite IH.
Qed.

Lemma decode_fold_tags (statuses : list string) (tbl : list (string * Z))
    (st : Z) (tg : gmap string string) (k : string) :
  (foldl (decodeStep statuses) (st, tg) tbl).2 !! k
  = if existsb (λ e, Contains e.1 statuses && String.eqb (tagName e.1) k) tbl
    then Some "true" else tg !! k.
Proof.
  revert st tg. induction tbl as [|[token bit] tbl IH]; intros st tg.
  - reflexivity.
  - cbn [foldl existsb]. unfold decodeStep at 2. cbn [fst snd].
    destruct (Contains token statuses); cbn [andb orb].
    + rewrite IH. destruct (String.eqb_spec (tagName token) k) as [->|Hne].
      * cbn [orb]. destruct (existsb _ tbl); [done|]. apply lookup_insert_eq.
      * cbn [orb]. destruct (existsb _ tbl); [done|]. by apply lookup_insert_ne.
    + by rewrite IH.
Qed.

Lemma statusTable_bits : Forall (λ e : string * Z, 0 ≤ e.2) statusTable.
Proof. unfold statusTable. repeat constructor; cbn; lia. Qed.

(** The bit and the tag of the token at each position of the table. *)
Lemma mapStatus_mask_bit (metrics : gmap string iface)
    (tags : gmap string string) (i : Z) :
  Z.testbit (mapStatus metrics tags).1 i
  = existsb (λ e, Contains e.1 (Fields (statusString metrics)) && (e.2 =? i))
            statusTable.
Proof.
  rewrite mapStatus_decodeTable. unfold decodeTable.
  rewrite decode_fold_mask by apply statusTable_bits.
  by rewrite Z.bits_0.
Qed.

Lemma mapStatus_tag_lookup (metrics : gmap string iface)
    (tags : gmap string string) (k : string) :
  (mapStatus metrics tags).2 !! k
  = if existsb (λ e, Contains e.1 (Fields (statusString metrics))
                     && String.eqb (tagName e.1) k) statusTable
    then Some "true" else tags !! k.
Proof. rewrite mapStatus_decodeTable. apply decode_fold_tags. Qed.

Lemma status_key_cases (k : string) :
  k ∉ statusTagNames →
  existsb (λ e : string * Z, String.eqb (tagName e.1) k) statusTable = false.
Proof.
  intros Hk. apply not_true_is_false. intros Hex.
  apply existsb_exists in Hex as ([token bit] & Hin & Heq).
  apply String.eqb_eq in Heq. cbn [fst] in Heq. subst k. apply Hk.
  unfold statusTagNames, statusTokens. unfold statusTable in Hin.
  cbn [In] in Hin.
  repeat (destruct Hin as [Hin|Hin];
          [inversion Hin; subst; cbn [fmap list_fmap]; elem_of_list|]).
  done.
Qed.

Lemma existsb_and_false {A} (p q : A → bool) (l : list A) :
  existsb q l = false → existsb (λ e, p e && q e) l = false.
Proof.
  induction l as [|x l IH]; [done|]. cbn. intros H.
  apply orb_false_iff in H as [-> Hl]. by rewrite andb_false_r, IH.
Qed.

Lemma mapStatus_frame (metrics : gmap string iface)
    (tags : gmap string string) (k : string) :
  k ∉ statusTagNames → (mapStatus metrics tags).2 !! k = tags !! k.
Proof.
  intros Hk. rewrite mapStatus_tag_lookup.
  by rewrite existsb_and_false by by apply status_key_cases.
Qed.

(** C2: the bit at position i of the mask is set, and the tag
    [status_<TOKEN>] is put to ["true"], exactly when the i-th token of
    CAL, TRIM, BOOST, OL, OB, OVER, LB, RB is among the fields of the
    status string; no other bit is set and no other key is touched, so an
    unrecognised token leaves no trace. ["OL"] gives mask 8 and the tag
    status_OL alone, ["OB LB"] gives mask 80 and the tags status_OB and
    status_LB. *)
Theorem mapStatus_bits_and_tags (metrics : gmap string iface)
    (tags : gmap string string) :
  let statuses := Fields (statusString metrics) in
  let mask := (mapStatus metrics tags).1 in
  let tags' := (mapStatus metrics tags).2 in
  (∀ (i : nat) (token : string), statusTokens !! i = Some token →
     (Z.testbit mask (Z.of_nat i) = true ↔ token ∈ statuses)
     ∧ tags' !! tagName token
       = if decide (token ∈ statuses) then Some "true"
         else tags !! tagName token)
  ∧ (∀ i : Z, 8 ≤ i → Z.testbit mask i = false)
  ∧ (∀ k : string, k ∉ statusTagNames → tags' !! k = tags !! k)
  ∧ mapStatus {[ "ups.status" := VString "OL" ]} ∅
    = (8, {[ "status_OL" := "true" ]})
  ∧ mapStatus {[ "ups.status" := VString "OB LB" ]} ∅
    = (80, {[ "status_OB" := "true"; "status_LB" := "true" ]}).
Proof.
  intros statuses mask tags'.
  split; [|split; [|split; [|split]]].
  - intros i token Hi.
    assert (Hbit : Z.testbit mask (Z.of_nat i) = Contains token statuses).
    { subst mask. rewrite mapStatus_mask_bit. fold statuses.
      do 8 (destruct i as [|i]; [injection Hi as <-; cbn;
        by rewrite ?andb_false_r, ?andb_true_r, ?orb_false_r|]).
      done. }
    assert (Htag : tags' !! tagName token
                   = if Contains token statuses then Some "true"
                     else tags !! tagName token).
    { subst tags'. rewrite mapStatus_tag_lookup. fold statuses.
      do 8 (destruct i as [|i]; [injection Hi as <-; cbn;
        by rewrite ?andb_false_r, ?andb_true_r, ?orb_false_r|]).
      done. }
    split.
    + rewrite Hbit. apply Contains_true.
    + rewrite Htag, Contains_spec. unfold bool_decide.
      by destruct (decide_rel elem_of token statuses).
  - intros i Hi. subst mask. rewrite mapStatus_mask_bit.
    unfold statusTable. cbn [existsb fst snd].
    repeat match goal with
    | |- context [?b =? i] =>
      replace (b =? i) with false by (symmetry; apply Z.eqb_neq; lia)
    end.
    by rewrite !andb_false_r.
  - intros k Hk. by apply mapStatus_frame.
  - vm_compute. reflexivity.
  - vm_compute. reflexivity.
Qed.

(** ** The decoder depends on the set of tokens only *)

Lemma statusString_insert (s : string) (metrics : gmap string iface) :
  statusString (<["ups.status" := VString s]> metrics) = s.
Proof. unfold statusString, index. by rewrite lookup_insert_eq. Qed.

Lemma decodeTable_same_set (l1 l2 : list string) (tags : gmap string string) :
  (∀ token, token ∈ statusTokens → (token ∈ l1 ↔ token ∈ l2)) →
  decodeTable l1 tags = decodeTable l2 tags.
Proof.
  intros Hset. unfold decodeTable, statusTable, decodeStep. cbn [foldl fst snd].
  rewrite !(Contains_same_set _ l1 l2)
    by (apply Hset; unfold statusTokens; elem_of_list).
  reflexivity.
Qed.

(** C3: two status strings whose fields form the same set of tokens, in
    whatever order, with whatever repetitions and whitespace between
    them, decode to the same mask and the same tags. *)
Theorem mapStatus_token_set (s1 s2 : string) (metrics : gmap string iface)
    (tags : gmap string string) :
  (∀ token : string, token ∈ Fields s1 ↔ token ∈ Fields s2) →
  mapStatus (<["ups.status" := VString s1]> metrics) tags
  = mapStatus (<["ups.status" := VString s2]> metrics) tags.
Proof.
  intros Hset. rewrite !mapStatus_decodeTable, !statusString_insert.
  apply decodeTable_same_set. intros token _. apply Hset.
Qed.

Lemma mapStatus_token_set_witness :
  mapStatus (<["ups.status" := VString "OL  LB OL"]> ∅) ∅
  = mapStatus
      (<["ups.status" := VString (" LB" +:+ String "009" "OL")]> ∅) ∅.
Proof.
  apply (mapStatus_token_set "OL  LB OL" (" LB" +:+ String "009" "OL") ∅ ∅).
  intros token.
  change (Fields "OL  LB OL") with ["OL"; "LB"; "OL"].
  change (Fields (" LB" +:+ String "009" "OL")) with ["LB"; "OL"].
  rewrite !elem_of_cons, !elem_of_nil. tauto.
Defined.

(** The same in terms of the words written into the status string. *)
Lemma mapStatus_layouts (lead1 lead2 : string)
    (items1 items2 : list (string * string)) (metrics : gmap string iface)
    (tags : gmap string string) :
  laid_out lead1 items1 → laid_out lead2 items2 →
  (∀ token : string, token ∈ items1.*1 ↔ token ∈ items2.*1) →
  mapStatus (<["ups.status" := VString (layout lead1 items1)]> metrics) tags
  = mapStatus (<["ups.status" := VString (layout lead2 items2)]> metrics) tags.
Proof.
  intros Hlaid1 Hlaid2 Hset.
  rewrite !mapStatus_decodeTable, !statusString_insert, !Fields_layout by done.
  apply decodeTable_same_set. intros token _. apply Hset.
Qed.

(** ** Nothing recognised *)

Lemma decodeTable_nothing (statuses : list string) (tags : gmap string string) :
  (∀ token, token ∈ statusTokens → token ∉ statuses) →
  decodeTable statuses tags = (0, tags).
Proof.
  intros Hnone. unfold decodeTable, statusTable, decodeStep. cbn [foldl fst snd].
  repeat match goal with
  | |- context [Contains ?c statuses] =>
    replace (Contains c statuses) with false
      by (symmetry; apply Contains_false, Hnone;
          unfold statusTokens; elem_of_list)
  end.
  reflexivity.
Qed.

(** C4: with no ups.status key (the status string is then ["<nil>"]),
    with an empty status string, or with a status string none of whose
    fields is a recognised token, the decoder returns mask 0 and the tag
    set it was given, and there is no error to return. *)
Theorem mapStatus_nothing_recognised (metrics : gmap string iface)
    (tags : gmap string string) :
  metrics !! "ups.status" = None
  ∨ statusString metrics = EmptyString
  ∨ (∀ token, token ∈ statusTokens → token ∉ Fields (statusString metrics)) →
  mapStatus metrics tags = (0, tags).
Proof.
  intros H. rewrite mapStatus_decodeTable. apply decodeTable_nothing.
  destruct H as [Habsent|[Hempty|Hnone]]; [| |done].
  - unfold statusString, index. rewrite Habsent. cbn [default Sprintf_v].
    by apply no_token_check.
  - rewrite Hempty. change (Fields EmptyString) with (@nil string).
    intros token _. apply not_elem_of_nil.
Qed.

Lemma mapStatus_nothing_recognised_witness :
  mapStatus ∅ {[ "ups_name" := "ups1" ]} = (0, {[ "ups_name" := "ups1" ]})
  ∧ mapStatus {[ "ups.status" := VString EmptyString ]} ∅ = (0, ∅)
  ∧ mapStatus {[ "ups.status" := VString "FSD  BYPASS" ]} ∅ = (0, ∅)
  ∧ mapStatus {[ "ups.status" := VInt64 7 ]} ∅ = (0, ∅).
Proof.
  split; [|split; [|split]].
  - apply (mapStatus_nothing_recognised ∅). left. reflexivity.
  - apply (mapStatus_nothing_recognised {[ "ups.status" := VString EmptyString ]}).
    right; left. reflexivity.
  - apply (mapStatus_nothing_recognised {[ "ups.status" := VString "FSD  BYPASS" ]}).
    right; right. apply no_token_check. reflexivity.
  - apply (mapStatus_nothing_recognised {[ "ups.status" := VInt64 7 ]}).
    right; right. apply no_token_check. reflexivity.
Defined.

(** ** Running the decoder again *)

Lemma mapStatus_mask_tags_irrelevant (metrics : gmap string iface)
    (tags1 tags2 : gmap string string) :
  (mapStatus metrics tags1).1 = (mapStatus metrics tags2).1.
Proof. apply Z.bits_inj'. intros i _. by rewrite !mapStatus_mask_bit. Qed.

(** C9: the decoder is a function of the mapping and the tag set, and a
    second run on the tags the first run left returns the same mask and
    leaves those tags as they are. *)
Theorem mapStatus_idempotent (metrics : gmap string iface)
    (tags : gmap string string) :
  mapStatus metrics (mapStatus metrics tags).2 = mapStatus metrics tags.
Proof.
  apply injective_projections.
  - apply mapStatus_mask_tags_irrelevant.
  - apply map_eq. intros k. rewrite !mapStatus_tag_lookup.
    by destruct (existsb _ statusTable).
Qed.

(** ** What the decoder leaves alone *)

Lemma status_key_hit (p : string * Z → bool) (k : string) :
  existsb (λ e, p e && String.eqb (tagName e.1) k) statusTable = true →
  k ∈ statusTagNames.
Proof.
  intros Hex. destruct (decide (k ∈ statusTagNames)) as [|Hk]; [done|].
  rewrite existsb_and_false in Hex by by apply status_key_cases. done.
Qed.

Lemma baseTags_keys (name : string) (metrics : gmap string iface)
    (k v : string) :
  baseTags name metrics !! k = Some v → k ∉ statusTagNames.
Proof.
  unfold baseTags. rewrite !lookup_insert_Some, lookup_empty.
  intros [[<- _]|[_ [[<- _]|[_ [[<- _]|[_ ?]]]]]]; [| | |done];
    intros Hin; unfold statusTagNames, statusTokens in Hin;
    cbn [fmap list_fmap] in Hin;
    repeat (apply elem_of_cons in Hin as [Hin|Hin]; [discriminate Hin|]);
    by apply elem_of_nil in Hin.
Qed.

(** C10: every entry of the tag set the decoder returns is an entry it
    was given or some [status_<TOKEN>] with value ["true"]; a key that is
    not one of the eight status keys keeps its entry, a status key keeps
    its entry or is set to ["true"]; so the entries [gatherUps] passes
    in (serial, ups_name, model) come back as they were. *)
Theorem mapStatus_touches_status_tags_only (metrics : gmap string iface)
    (tags : gmap string string) :
  let tags' := (mapStatus metrics tags).2 in
  (∀ k v, tags' !! k = Some v →
     tags !! k = Some v ∨ (k ∈ statusTagNames ∧ v = "true"))
  ∧ (∀ k, k ∉ statusTagNames → tags' !! k = tags !! k)
  ∧ (∀ k, k ∈ statusTagNames →
       tags' !! k = tags !! k ∨ tags' !! k = Some "true")
  ∧ (∀ name metrics0 k v,
       baseTags name metrics0 !! k = Some v →
       (mapStatus metrics (baseTags name metrics0)).2 !! k = Some v).
Proof.
  intros tags'. subst tags'. split; [|split; [|split]].
  - intros k v. rewrite mapStatus_tag_lookup.
    destruct (existsb _ statusTable) eqn:Hex; [|by left].
    intros [= <-]. right. split; [|done].
    exact (status_key_hit
             (λ e, Contains e.1 (Fields (statusString metrics))) k Hex).
  - intros k Hk. by apply mapStatus_frame.
  - intros k _. rewrite mapStatus_tag_lookup.
    destruct (existsb _ statusTable); [by right|by left].
  - intros name metrics0 k v Hk. rewrite mapStatus_frame; [done|].
    by eapply baseTags_keys.
Qed.

(** ** The variable normaliser *)

Lemma foldl_insert_lookup (variables : list NutVariable)
    (m : gmap string iface) (k : string) :
  foldl (λ metrics variable, <[Name variable := Value variable]> metrics)
        m variables !! k
  = match lastValue k variables with
    | Some v => Some v
    | None => m !! k
    end.
Proof.
  revert m. induction variables as [|x xs IH]; intros m; [done|].
  cbn [foldl]. rewrite IH. unfold lastValue. rewrite filter_cons.
  destruct (decide (Name x = k)) as [<-|Hne].
  - destruct (filter _ xs) as [|y ys] eqn:Hf.
    + cbn. apply lookup_insert_eq.
    + rewrite last_cons_cons.
      destruct (last (y :: ys)) eqn:Hl; [done|]. by apply last_None in Hl.
  - destruct (last (filter _ xs)); [done|]. cbn. by apply lookup_insert_ne.
Qed.

(** Last value wins. *)
Lemma normalize_lookup (variables : list NutVariable) (k : string) :
  normalize variables !! k = lastValue k variables.
Proof.
  unfold normalize. rewrite foldl_insert_lookup, lookup_empty.
  by destruct (lastValue k variables).
Qed.

Lemma lastValue_None (variables : list NutVariable) (k : string) :
  lastValue k variables = None ↔ ∀ v, v ∈ variables → Name v ≠ k.
Proof.
  unfold lastValue. rewrite fmap_None, last_None. split.
  - intros Hnil v Hv Hname.
    assert (Hin : v ∈ filter (λ v, Name v = k) variables)
      by by apply list_elem_of_filter.
    rewrite Hnil in Hin. by apply elem_of_nil in Hin.
  - intros Hall. induction variables as [|x xs IH]; [done|].
    rewrite filter_cons, decide_False by (apply Hall; left).
    apply IH. intros v Hv. apply Hall. by right.
Qed.

Lemma index_normalize (variables : list NutVariable) (k : string) :
  index (normalize variables) k = default VNil (lastValue k variables).
Proof. unfold index. by rewrite normalize_lookup. Qed.

(** ** The metric builder *)

Lemma set_latch_same (u : Upsd) :
  set_batteryRuntimeTypeWarningIssued u (batteryRuntimeTypeWarningIssued u) = u.
Proof. by destruct u. Qed.

(** One call of [gatherUps]: the latch is raised when the runtime is not
    an int64, a warning goes out when that raises it, and the record of
    the device follows in every case. *)
Lemma gatherUps_unfold (u : Upsd) (name : string) (variables : list NutVariable) :
  gatherUps u name variables
  = (set_batteryRuntimeTypeWarningIssued u
       (batteryRuntimeTypeWarningIssued u || negb (runtime_is_int64 variables)),
     (if negb (runtime_is_int64 variables)
         && negb (batteryRuntimeTypeWarningIssued u)
      then [EvWarnf runtimeWarning] else [])
     ++ [metricEvent name variables]).
Proof.
  unfold gatherUps, metricEvent, metricRecord, runtime_is_int64.
  destruct (mapStatus _ _) as [status tags].
  destruct (assert_int64 _) as [timeLeftS ok]. cbn [fst snd].
  destruct ok, (batteryRuntimeTypeWarningIssued u) eqn:Hu; cbn [negb andb orb];
    try reflexivity; by rewrite <- Hu, set_latch_same.
Qed.

Lemma emitted_gatherUps (u : Upsd) (name : string) (variables : list NutVariable) :
  emitted (gatherUps u name variables).2 = [metricRecord name variables].
Proof.
  rewrite gatherUps_unfold. cbn [snd]. unfold emitted. rewrite omap_app.
  unfold metricEvent. destruct (metricRecord name variables) as [[m f] t].
  by destruct (negb _ && negb _).
Qed.

(** C8: the one record built for a device carries ups_name, the name the
    protocol gave, and serial and model, the [%v] text of the value the
    device reports as device.serial and device.model; when the device
    reports no such variable the text is ["<nil>"]. The builder returns
    no error. *)
Theorem gatherUps_identity_tags (u : Upsd) (name : string)
    (variables : list NutVariable) :
  let evs := (gatherUps u name variables).2 in
  length (emitted evs) = 1%nat
  ∧ tagOf "ups_name" evs = [Some name]
  ∧ tagOf "serial" evs
    = [Some (Sprintf_v (default VNil (lastValue "device.serial" variables)))]
  ∧ tagOf "model" evs
    = [Some (Sprintf_v (default VNil (lastValue "device.model" variables)))]
  ∧ ((∀ v, v ∈ variables → Name v ≠ "device.serial") →
     tagOf "serial" evs = [Some "<nil>"])
  ∧ ((∀ v, v ∈ variables → Name v ≠ "device.model") →
     tagOf "model" evs = [Some "<nil>"]).
Proof.
  intros evs. subst evs. unfold tagOf. rewrite emitted_gatherUps.
  cbn [fmap list_fmap length]. unfold metricRecord. cbn [fst snd].
  assert (Hkeep : ∀ k v, baseTags name (normalize variables) !! k = Some v →
            (mapStatus (normalize variables)
               (baseTags name (normalize variables))).2 !! k = Some v).
  { intros k v Hk. rewrite mapStatus_frame; [done|]. by eapply baseTags_keys. }
  assert (Hserial : (mapStatus (normalize variables)
             (baseTags name (normalize variables))).2 !! "serial"
           = Some (Sprintf_v
                     (default VNil (lastValue "device.serial" variables)))).
  { apply Hkeep. by rewrite <- index_normalize. }
  assert (Hmodel : (mapStatus (normalize variables)
             (baseTags name (normalize variables))).2 !! "model"
           = Some (Sprintf_v
                     (default VNil (lastValue "device.model" variables)))).
  { apply Hkeep. by rewrite <- index_normalize. }
  split; [done|]. split; [f_equal; by apply Hkeep|].
  split; [by f_equal|]. split; [by f_equal|]. split.
  - intros Habsent. apply lastValue_None in Habsent.
    by rewrite Hserial, Habsent.
  - intros Habsent. apply lastValue_None in Habsent.
    by rewrite Hmodel, Habsent.
Qed.

(** ** The remaining runtime, in nanoseconds *)

Lemma wrap_int64_small (z : Z) :
  - 2 ^ 63 ≤ z < 2 ^ 63 → wrap_int64 z = z.
Proof. intros Hz. unfold wrap_int64. rewrite Z.mod_small; lia. Qed.

Lemma wrap_int64_range (z : Z) : - 2 ^ 63 ≤ wrap_int64 z < 2 ^ 63.
Proof.
  unfold wrap_int64.
  pose proof (Z.mod_pos_bound (z + 2 ^ 63) (2 ^ 64) ltac:(lia)). lia.
Qed.

Lemma buildFields_time_left_ns (status timeLeftS : Z)
    (metrics : gmap string iface) :
  buildFields status timeLeftS metrics !! "time_left_ns"
  = Some (VInt64 (mul_int64 timeLeftS 1000000000)).
Proof.
  unfold buildFields.
  do 9 (rewrite lookup_insert_ne by discriminate).
  by rewrite lookup_insert_eq.
Qed.

(** The claim of C5 read over the integers fails once the product leaves
    the int64 range: a runtime of 9223372037 seconds comes out negative. *)
Lemma time_left_ns_wraps :
  fieldOf "time_left_ns"
    (gatherUps new_Upsd "ups1" [var "battery.runtime" (VInt64 9223372037)]).2
  = [Some (VInt64 (-9223372036709551616))]
  ∧ -9223372036709551616 ≠ 9223372037 * 1000000000
  ∧ - 2 ^ 63 ≤ 9223372037 < 2 ^ 63.
Proof. split; [by vm_compute|]. split; [done|lia]. Qed.

(** C5, amended: the field time_left_ns of the record of a device is the
    int64 product of its battery.runtime r and 1,000,000,000, which is
    r * 1,000,000,000 itself whenever -9223372036 <= r <= 9223372036
    (120 gives 120,000,000,000); when the value is not an int64 the
    product is taken on 0, the field is 0 and the record is emitted all
    the same. *)
Theorem gatherUps_time_left_ns (u : Upsd) (name : string)
    (variables : list NutVariable) :
  let runtime := default VNil (lastValue "battery.runtime" variables) in
  let evs := (gatherUps u name variables).2 in
  fieldOf "time_left_ns" evs
  = [Some (VInt64 match runtime with
                  | VInt64 r => wrap_int64 (r * 1000000000)
                  | _ => 0
                  end)]
  ∧ (∀ r, runtime = VInt64 r → -9223372036 ≤ r ≤ 9223372036 →
     fieldOf "time_left_ns" evs = [Some (VInt64 (r * 1000000000))])
  ∧ ((∀ r, runtime ≠ VInt64 r) →
     fieldOf "time_left_ns" evs = [Some (VInt64 0)])
  ∧ fieldOf "time_left_ns"
      (gatherUps u name [var "battery.runtime" (VInt64 120)]).2
    = [Some (VInt64 120000000000)].
Proof.
  intros runtime evs.
  assert (Hfield : fieldOf "time_left_ns" evs
    = [Some (VInt64 match runtime with
                    | VInt64 r => wrap_int64 (r * 1000000000)
                    | _ => 0
                    end)]).
  { subst evs runtime. unfold fieldOf. rewrite emitted_gatherUps.
    cbn [fmap list_fmap]. unfold metricRecord. cbn [fst snd].
    rewrite buildFields_time_left_ns, index_normalize.
    by destruct (default VNil _). }
  split; [done|]. split; [|split].
  - intros r Hr Hrange. rewrite Hfield, Hr.
    by rewrite wrap_int64_small by lia.
  - intros Hother. rewrite Hfield.
    destruct runtime; try done. by destruct (Hother n).
  - unfold fieldOf. rewrite emitted_gatherUps. cbn [fmap list_fmap].
    unfold metricRecord. cbn [fst snd]. by rewrite buildFields_time_left_ns.
Qed.

(** ** The connection life cycle *)

Lemma credentials_given (u : Upsd) :
  negb (String.eqb (Username u) EmptyString)
  && negb (String.eqb (Password u) EmptyString) = true
  ↔ Username u ≠ EmptyString ∧ Password u ≠ EmptyString.
Proof.
  rewrite andb_true_iff, !negb_true_iff.
  by destruct (String.eqb_spec (Username u) EmptyString),
              (String.eqb_spec (Password u) EmptyString); split; intros [??].
Qed.

Lemma fetchVariables_connect_error (u : Upsd) (srv : NutServer)
    (server : string) (e : error) :
  Connect_reply srv server (ConnectionTimeout u) (OpTimeout u) = Some e →
  fetchVariables u srv server
  = ([EvConnect server (ConnectionTimeout u) (OpTimeout u)],
     inr (Errorf_w "connect: " e)).
Proof. intros H. unfold fetchVariables. by rewrite H. Qed.

Lemma fetchVariables_auth_error (u : Upsd) (srv : NutServer)
    (server : string) (e : error) :
  Connect_reply srv server (ConnectionTimeout u) (OpTimeout u) = None →
  Username u ≠ EmptyString ∧ Password u ≠ EmptyString →
  Authenticate_reply srv (Username u) (Password u) = Some e →
  fetchVariables u srv server
  = ([EvConnect server (ConnectionTimeout u) (OpTimeout u);
      EvAuthenticate (Username u) (Password u)],
     inr (Errorf_w "auth: " e)).
Proof.
  intros Hc Hcred Ha. apply credentials_given in Hcred.
  unfold fetchVariables. by rewrite Hc, Hcred, Ha.
Qed.

Lemma fetchVariables_listed (u : Upsd) (srv : NutServer) (server : string) :
  Connect_reply srv server (ConnectionTimeout u) (OpTimeout u) = None →
  (Username u ≠ EmptyString ∧ Password u ≠ EmptyString →
   Authenticate_reply srv (Username u) (Password u) = None) →
  fetchVariables u srv server
  = match GetUPSList_reply srv with
    | inr e => (prelude u server, inr (Errorf_w "getupslist: " e))
    | inl upsList => (prelude u server ++ [EvDisconnect], inl (collect upsList))
    end.
Proof.
  intros Hc Ha. unfold fetchVariables, prelude. rewrite Hc.
  destruct (negb _ && negb _) eqn:Hcred.
  - rewrite Ha by by apply credentials_given.
    destruct (GetUPSList_reply srv); by rewrite <- ?app_assoc.
  - destruct (GetUPSList_reply srv); by rewrite <- ?app_assoc.
Qed.

(** [fetchVariables] talks to the network only. *)
Lemma fetchVariables_network (u : Upsd) (srv : NutServer) (server : string) :
  local (fetchVariables u srv server).1 = [].
Proof.
  unfold fetchVariables.
  destruct (Connect_reply _ _ _ _); [done|].
  destruct (negb _ && negb _).
  - destruct (Authenticate_reply _ _ _); [done|].
    by destruct (GetUPSList_reply srv).
  - by destruct (GetUPSList_reply srv).
Qed.

Lemma emitted_local (evs : list Event) : emitted (local evs) = emitted evs.
Proof.
  induction evs as [|ev evs IH]; [done|].
  unfold local in *. cbn [List.filter].
  destruct ev; cbn [is_local]; try exact IH.
  all: unfold emitted in *; cbn [omap list_omap]; by rewrite IH.
Qed.

Lemma warnings_local (evs : list Event) : warnings (local evs) = warnings evs.
Proof.
  induction evs as [|ev evs IH]; [done|].
  unfold local in *. cbn [List.filter].
  destruct ev; cbn [is_local]; try exact IH.
  all: unfold warnings in *; cbn [omap list_omap]; by rewrite IH.
Qed.

Lemma local_app (evs1 evs2 : list Event) :
  local (evs1 ++ evs2) = local evs1 ++ local evs2.
Proof. apply List.filter_app. Qed.

(** C1 fails on the code: the release is registered after the early
    returns of [fetchVariables], so it happens once when the listing
    succeeded and not at all when authenticate or the listing failed
    after a successful connect. *)
Theorem fetchVariables_releases_on_success_only (u : Upsd) (srv : NutServer)
    (server : string) :
  disconnects (fetchVariables u srv server).1
  = match (fetchVariables u srv server).2 with
    | inl _ => 1%nat
    | inr _ => 0%nat
    end
  ∧ fetchVariables monitor rejecting defaultAddress
    = ([EvConnect defaultAddress defaultConnectTimeout defaultOpTimeout;
        EvAuthenticate "monitor" "secret"],
       inr (wrapError "auth: ACCESS-DENIED" (errorString "ACCESS-DENIED")))
  ∧ fetchVariables new_Upsd unlisting defaultAddress
    = ([EvConnect defaultAddress defaultConnectTimeout defaultOpTimeout;
        EvGetUPSList],
       inr (wrapError "getupslist: DRIVER-NOT-CONNECTED"
                      (errorString "DRIVER-NOT-CONNECTED"))).
Proof.
  split; [|split; reflexivity].
  unfold fetchVariables.
  destruct (Connect_reply _ _ _ _); [done|].
  destruct (negb _ && negb _).
  - destruct (Authenticate_reply _ _ _); [done|].
    by destruct (GetUPSList_reply srv).
  - by destruct (GetUPSList_reply srv).
Qed.

(** ** The poll cycle *)

Lemma Gather_unfold (range : RangeOrder) (u : Upsd) (srv : NutServer) :
  Gather range u srv
  = match (fetchVariables u srv (Server u)).2 with
    | inr err => (u, (fetchVariables u srv (Server u)).1, Some err)
    | inl upsList =>
      ((gatherAll u (range upsList)).1,
       (fetchVariables u srv (Server u)).1 ++ (gatherAll u (range upsList)).2,
       None)
    end.
Proof.
  unfold Gather. destruct (fetchVariables _ _ _) as [evs [upsList|err]]; [|done].
  cbn [fst snd]. by destruct (gatherAll _ _).
Qed.

Lemma gatherAll_cons (u : Upsd) (name : string) (variables : list NutVariable)
    (rest : list (string * list NutVariable)) :
  gatherAll u ((name, variables) :: rest)
  = ((gatherAll (gatherUps u name variables).1 rest).1,
     (gatherUps u name variables).2
     ++ (gatherAll (gatherUps u name variables).1 rest).2).
Proof.
  cbn [gatherAll]. destruct (gatherUps _ _ _) as [u1 evs1]. cbn [fst snd].
  by destruct (gatherAll u1 rest).
Qed.

Lemma emitted_app (evs1 evs2 : list Event) :
  emitted (evs1 ++ evs2) = emitted evs1 ++ emitted evs2.
Proof. apply omap_app. Qed.

(** The loop hands one record per entry to the sink, in the order of the
    walk. *)
Lemma emitted_gatherAll (u : Upsd) (devices : list (string * list NutVariable)) :
  emitted (gatherAll u devices).2
  = (λ d, metricRecord d.1 d.2) <$> devices.
Proof.
  revert u. induction devices as [|[name variables] rest IH]; intros u; [done|].
  rewrite gatherAll_cons. cbn [snd]. rewrite emitted_app, emitted_gatherUps, IH.
  reflexivity.
Qed.

Lemma emitted_fetchVariables (u : Upsd) (srv : NutServer) (server : string) :
  emitted (fetchVariables u srv server).1 = [].
Proof. by rewrite <- emitted_local, fetchVariables_network. Qed.

Lemma collect_dom (upsList : list NutUPS) (name : string) :
  name ∈ dom (collect upsList) ↔ name ∈ UPS_Name <$> upsList.
Proof.
  unfold collect.
  assert (Hgen : ∀ m : gmap string (list NutVariable),
    name ∈ dom (foldl (λ result ups, <[UPS_Name ups := UPS_Variables ups]> result)
                      m upsList)
    ↔ name ∈ dom m ∨ name ∈ UPS_Name <$> upsList).
  { induction upsList as [|ups rest IH]; intros m; cbn [foldl].
    - rewrite fmap_nil, elem_of_nil. tauto.
    - rewrite IH, dom_insert, elem_of_union, elem_of_singleton.
      rewrite fmap_cons, elem_of_cons. tauto. }
  rewrite Hgen, dom_empty, elem_of_empty. tauto.
Qed.

Lemma collect_size (upsList : list NutUPS) :
  NoDup (UPS_Name <$> upsList) → size (collect upsList) = length upsList.
Proof.
  intros Hnodup. rewrite <- size_dom.
  assert (Hdom : dom (collect upsList)
                 = list_to_set (C := gset string) (UPS_Name <$> upsList)).
  { apply set_eq. intros name. rewrite collect_dom, elem_of_list_to_set. done. }
  rewrite Hdom, size_list_to_set by done. apply length_fmap.
Qed.

Lemma Errorf_w_text (prefix : string) (e : error) :
  Error (Errorf_w prefix e) = prefix +:+ Error e
  ∧ Unwrap (Errorf_w prefix e) = Some e.
Proof. done. Qed.

(** C7: a failure of connect, of authenticate or of the listing ends the
    cycle with the one error of that step, wrapped under ["connect: "],
    ["auth: "] or ["getupslist: "], and the sink receives no record; when
    the listing succeeds the cycle returns no error and the sink receives
    one record per entry of the device map, which has one entry per
    device name listed. *)
Theorem Gather_cycle (range : RangeOrder) (u : Upsd) (srv : NutServer) :
  range_ok range →
  let connectReply :=
    Connect_reply srv (Server u) (ConnectionTimeout u) (OpTimeout u) in
  let credentials := Username u ≠ EmptyString ∧ Password u ≠ EmptyString in
  let authReply := Authenticate_reply srv (Username u) (Password u) in
  let error := (Gather range u srv).2 in
  let records := emitted (Gather range u srv).1.2 in
  (∀ e, connectReply = Some e →
     error = Some (Errorf_w "connect: " e) ∧ records = [])
  ∧ (∀ e, connectReply = None → credentials → authReply = Some e →
     error = Some (Errorf_w "auth: " e) ∧ records = [])
  ∧ (∀ e, connectReply = None → (credentials → authReply = None) →
     GetUPSList_reply srv = inr e →
     error = Some (Errorf_w "getupslist: " e) ∧ records = [])
  ∧ (∀ upsList, connectReply = None → (credentials → authReply = None) →
     GetUPSList_reply srv = inl upsList →
     error = None
     ∧ records ≡ₚ (λ d, metricRecord d.1 d.2) <$> map_to_list (collect upsList)
     ∧ length records = size (collect upsList)
     ∧ (∀ name, name ∈ dom (collect upsList) ↔ name ∈ UPS_Name <$> upsList)
     ∧ (NoDup (UPS_Name <$> upsList) → length records = length upsList)).
Proof.
  intros Hrange connectReply credentials authReply error records.
  subst error records. rewrite Gather_unfold.
  split; [|split; [|split]].
  - intros e Hc. rewrite (fetchVariables_connect_error _ _ _ _ Hc). by cbn.
  - intros e Hc Hcred Ha.
    rewrite (fetchVariables_auth_error _ _ _ _ Hc Hcred Ha). by cbn.
  - intros e Hc Ha Hl. rewrite (fetchVariables_listed _ _ _ Hc Ha), Hl.
    cbn [fst snd]. split; [done|].
    pose proof (emitted_fetchVariables u srv (Server u)) as Hnone.
    by rewrite (fetchVariables_listed _ _ _ Hc Ha), Hl in Hnone.
  - intros upsList Hc Ha Hl.
    pose proof (emitted_fetchVariables u srv (Server u)) as Hnone.
    rewrite (fetchVariables_listed _ _ _ Hc Ha), Hl in Hnone |- *.
    cbn [fst snd] in *. split; [done|].
    rewrite emitted_app, Hnone, emitted_gatherAll, app_nil_l.
    assert (Hlen : length ((λ d, metricRecord d.1 d.2) <$> range (collect upsList))
                   = size (collect upsList)).
    { by rewrite length_fmap, (Hrange (collect upsList)), length_map_to_list. }
    split; [by rewrite (Hrange (collect upsList))|]. split; [done|].
    split; [apply collect_dom|].
    intros Hnodup. by rewrite Hlen, collect_size.
Qed.

Lemma Gather_cycle_witness :
  ((Gather map_to_list new_Upsd unreachable).2
   = Some (Errorf_w "connect: " (errorString "connection refused"))
   ∧ emitted (Gather map_to_list new_Upsd unreachable).1.2 = [])
  ∧ length (emitted (Gather map_to_list new_Upsd (answering twoDevices)).1.2)
    = 2%nat.
Proof.
  split.
  - apply (Gather_cycle map_to_list new_Upsd unreachable);
      [intros m; reflexivity | reflexivity].
  - destruct (Gather_cycle map_to_list new_Upsd (answering twoDevices))
      as (_ & _ & _ & Hlisted); [intros m; reflexivity|].
    destruct (Hlisted twoDevices) as (_ & _ & _ & _ & Hlength);
      [reflexivity | intros _; reflexivity | reflexivity |].
    apply Hlength. apply (bool_decide_unpack _). reflexivity.
Defined.

(** ** The warning latch *)

Lemma gatherAll_app (u : Upsd) (l1 l2 : list (string * list NutVariable)) :
  gatherAll u (l1 ++ l2)
  = ((gatherAll (gatherAll u l1).1 l2).1,
     (gatherAll u l1).2 ++ (gatherAll (gatherAll u l1).1 l2).2).
Proof.
  revert u. induction l1 as [|[name variables] l1 IH]; intros u.
  - cbn [app gatherAll fst snd]. by destruct (gatherAll u l2).
  - rewrite <- app_comm_cons, !gatherAll_cons, IH. cbn [fst snd].
    by rewrite app_assoc.
Qed.

(** The latch only ever goes up. *)
Lemma gatherAll_latch (u : Upsd) (devices : list (string * list NutVariable)) :
  (gatherAll u devices).1
  = set_batteryRuntimeTypeWarningIssued u
      (batteryRuntimeTypeWarningIssued u || existsb malformed devices).
Proof.
  revert u. induction devices as [|[name variables] rest IH]; intros u.
  - cbn [gatherAll fst existsb]. by rewrite orb_false_r, set_latch_same.
  - rewrite gatherAll_cons. cbn [fst]. rewrite IH, gatherUps_unfold.
    cbn [fst existsb]. unfold malformed at 2. cbn [snd].
    unfold set_batteryRuntimeTypeWarningIssued. cbn. by rewrite orb_assoc.
Qed.

Lemma gatherAll_local (u : Upsd) (devices : list (string * list NutVariable)) :
  local (gatherAll u devices).2 = (gatherAll u devices).2.
Proof.
  revert u. induction devices as [|[name variables] rest IH]; intros u; [done|].
  rewrite gatherAll_cons. cbn [snd]. rewrite local_app, IH. f_equal.
  rewrite gatherUps_unfold. cbn [snd]. by destruct (negb _ && negb _).
Qed.

(** With the latch up, no call warns. *)
Lemma gatherAll_quiet (u : Upsd) (devices : list (string * list NutVariable)) :
  batteryRuntimeTypeWarningIssued u = true →
  (gatherAll u devices).2 = metricEventOf <$> devices.
Proof.
  revert u. induction devices as [|[name variables] rest IH]; intros u Hu; [done|].
  rewrite gatherAll_cons. cbn [snd]. rewrite IH.
  - rewrite gatherUps_unfold. cbn [snd]. by rewrite Hu, andb_false_r.
  - rewrite gatherUps_unfold. cbn [fst]. by rewrite Hu.
Qed.

(** Devices whose runtime is an int64 neither warn nor touch the latch. *)
Lemma gatherAll_wellformed (u : Upsd) (devices : list (string * list NutVariable)) :
  Forall (λ d, malformed d = false) devices →
  gatherAll u devices = (u, metricEventOf <$> devices).
Proof.
  intros Hall. revert u.
  induction Hall as [|[name variables] rest Hd _ IH]; intros u; [done|].
  rewrite gatherAll_cons, gatherUps_unfold. cbn [fst snd].
  unfold malformed in Hd. cbn [snd] in Hd. rewrite Hd.
  cbn [andb]. by rewrite orb_false_r, set_latch_same, IH.
Qed.

(** The one warning sits right before the record of the first device
    whose runtime is not an int64. *)
Lemma gatherAll_first_malformed (u : Upsd)
    (pre post : list (string * list NutVariable))
    (d : string * list NutVariable) :
  batteryRuntimeTypeWarningIssued u = false →
  Forall (λ d, malformed d = false) pre →
  malformed d = true →
  (gatherAll u (pre ++ d :: post)).2
  = (metricEventOf <$> pre)
    ++ [EvWarnf runtimeWarning; metricEventOf d]
    ++ (metricEventOf <$> post).
Proof.
  intros Hu Hpre Hd. destruct d as [name variables].
  rewrite gatherAll_app, (gatherAll_wellformed u pre Hpre). cbn [fst snd].
  f_equal. rewrite gatherAll_cons, gatherUps_unfold. cbn [fst snd].
  unfold malformed in Hd. cbn [snd] in Hd. rewrite Hd, Hu. cbn [andb negb orb].
  by rewrite gatherAll_quiet.
Qed.

Lemma warnings_gatherAll (u : Upsd) (devices : list (string * list NutVariable)) :
  warnings (gatherAll u devices).2
  = if negb (batteryRuntimeTypeWarningIssued u) && existsb malformed devices
    then [runtimeWarning] else [].
Proof.
  revert u. induction devices as [|[name variables] rest IH]; intros u.
  - cbn. by rewrite andb_false_r.
  - rewrite gatherAll_cons. cbn [snd]. unfold warnings in *.
    rewrite omap_app, IH, gatherUps_unfold. cbn [fst snd existsb].
    unfold malformed at 2. cbn [snd].
    destruct (runtime_is_int64 variables), (batteryRuntimeTypeWarningIssued u);
      cbn; try done; by destruct (existsb malformed rest).
Qed.

Lemma encounters_latch (u : Upsd) (b : bool)
    (cycles : list (RangeOrder * NutServer)) :
  encounters (set_batteryRuntimeTypeWarningIssued u b) cycles
  = encounters u cycles.
Proof. reflexivity. Qed.

(** A sequence of cycles amounts, for the log and the sink, to one walk
    over the devices it meets. *)
Lemma poll_gatherAll (u : Upsd) (cycles : list (RangeOrder * NutServer)) :
  (poll u cycles).1 = (gatherAll u (encounters u cycles)).1
  ∧ local (poll u cycles).2 = (gatherAll u (encounters u cycles)).2.
Proof.
  revert u. induction cycles as [|[range srv] rest IH]; intros u; [done|].
  cbn [poll]. rewrite Gather_unfold.
  change (encounters u ((range, srv) :: rest))
    with (cycleDevices u (range, srv) ++ encounters u rest).
  unfold cycleDevices. cbn [fst snd].
  pose proof (fetchVariables_network u srv (Server u)) as Hnet.
  destruct (fetchVariables u srv (Server u)) as [evs [upsList|err]];
    cbn [fst snd] in *.
  - destruct (poll _ rest) as [u2 evs2] eqn:Hpoll.
    destruct (IH (gatherAll u (range upsList)).1) as [IH1 IH2].
    rewrite Hpoll in IH1, IH2. cbn [fst snd] in *.
    assert (Henc : encounters (gatherAll u (range upsList)).1 rest
                   = encounters u rest)
      by (rewrite gatherAll_latch; apply encounters_latch).
    rewrite Henc in IH1, IH2. rewrite gatherAll_app. cbn [fst snd].
    split; [done|]. by rewrite !local_app, Hnet, gatherAll_local, IH2.
  - destruct (poll u rest) as [u2 evs2] eqn:Hpoll.
    destruct (IH u) as [IH1 IH2]. rewrite Hpoll in IH1, IH2.
    cbn [fst snd app] in *. split; [done|]. by rewrite local_app, Hnet.
Qed.

(** C6: over any sequence of poll cycles, the latch of the collector is
    up afterwards when it was up before or some device met had a runtime
    that is not an int64, and is never brought down; a collector whose
    latch is up logs nothing; one whose latch is down logs the warning
    once, right before the record of the first such device, and nothing
    for the devices and cycles after it. *)
Theorem poll_warns_once (u : Upsd) (cycles : list (RangeOrder * NutServer)) :
  let devices := encounters u cycles in
  let evs := local (poll u cycles).2 in
  batteryRuntimeTypeWarningIssued (poll u cycles).1
  = batteryRuntimeTypeWarningIssued u || existsb malformed devices
  ∧ warnings (poll u cycles).2
    = (if negb (batteryRuntimeTypeWarningIssued u) && existsb malformed devices
       then [runtimeWarning] else [])
  ∧ (batteryRuntimeTypeWarningIssued u = true →
     evs = metricEventOf <$> devices)
  ∧ (batteryRuntimeTypeWarningIssued u = false →
     ∀ pre d post,
       devices = pre ++ d :: post →
       Forall (λ d, malformed d = false) pre →
       malformed d = true →
       evs = (metricEventOf <$> pre)
             ++ [EvWarnf runtimeWarning; metricEventOf d]
             ++ (metricEventOf <$> post)).
Proof.
  intros devices evs. subst devices evs.
  destruct (poll_gatherAll u cycles) as [Hu Hevs].
  split; [|split; [|split]].
  - by rewrite Hu, gatherAll_latch.
  - by rewrite <- warnings_local, Hevs, warnings_gatherAll.
  - intros Hup. by rewrite Hevs, gatherAll_quiet.
  - intros Hdown pre d post Hsplit Hpre Hd.
    by rewrite Hevs, Hsplit, gatherAll_first_malformed.
Qed.

(** Three cycles on one collector: the second device of the first cycle
    has a runtime that is no int64, the second cycle cannot connect, the
    third meets the same devices again. One warning in all. *)
Example poll_three_cycles :
  let cycles := [ (map_to_list, answering twoDevices);
                  (map_to_list, unreachable);
                  (map_to_list, answering twoDevices) ] in
  warnings (poll new_Upsd cycles).2 = [runtimeWarning]
  ∧ length (emitted (poll new_Upsd cycles).2) = 4%nat
  ∧ batteryRuntimeTypeWarningIssued (poll new_Upsd cycles).1 = true.
Proof. by vm_compute. Qed.

(** * Further properties of the code *)

(** ** The variable normaliser *)

(** X1: the mapping built from a device's variables answers, for a name,
    with the value of the last variable of that name: a variable appended
    to the list is what its name then yields, the other names answer as
    before, and a name yields nothing exactly when no variable has it. *)
Theorem normalize_last_write_wins (variables : list NutVariable)
    (v : NutVariable) (k : string) :
  index (normalize (variables ++ [v])) (Name v) = Value v
  ∧ (k ≠ Name v →
     index (normalize (variables ++ [v])) k = index (normalize variables) k)
  ∧ normalize variables !! k = lastValue k variables
  ∧ (normalize variables !! k = None ↔ ∀ x, x ∈ variables → Name x ≠ k).
Proof.
  assert (Hsnoc : normalize (variables ++ [v])
                  = <[Name v := Value v]> (normalize variables)).
  { unfold normalize. by rewrite foldl_app. }
  split; [|split; [|split]].
  - unfold index. by rewrite Hsnoc, lookup_insert_eq.
  - intros Hk. unfold index. by rewrite Hsnoc, lookup_insert_ne.
  - apply normalize_lookup.
  - rewrite normalize_lookup. apply lastValue_None.
Qed.

(** ** The fields of a record *)

Lemma buildFields_dom (status timeLeftS : Z) (metrics : gmap string iface) :
  dom (buildFields status timeLeftS metrics) = list_to_set fieldNames.
Proof.
  unfold buildFields. rewrite !dom_insert_L, dom_empty_L.
  apply set_eq. intros k. unfold fieldNames, passThrough.
  cbn [fmap list_fmap fst app]. rewrite elem_of_list_to_set.
  rewrite !elem_of_union, !elem_of_singleton, !elem_of_cons, elem_of_nil,
    elem_of_empty.
  tauto.
Qed.

(** X2: the record of a device has the measurement name upsd and fifteen
    fields, whatever the device reports; each of the thirteen renamed
    fields holds the value the device reports under the variable of the
    table, and the nil value when it reports none. *)
Theorem gatherUps_fields (u : Upsd) (name : string)
    (variables : list NutVariable) :
  let evs := (gatherUps u name variables).2 in
  Forall (λ p, fieldOf p.1 evs
               = [Some (default VNil (lastValue p.2 variables))]) passThrough
  ∧ (λ record, dom record.1.2) <$> emitted evs = [list_to_set fieldNames]
  ∧ (λ record, record.1.1) <$> emitted evs = ["upsd"].
Proof.
  intros evs. subst evs. unfold fieldOf. rewrite emitted_gatherUps.
  cbn [fmap list_fmap]. unfold metricRecord. cbn [fst snd].
  split; [|split; [by rewrite buildFields_dom | done]].
  unfold passThrough.
  repeat (apply Forall_cons; split;
          [cbn [fst snd]; unfold buildFields;
           repeat (rewrite lookup_insert_ne by discriminate);
           by rewrite lookup_insert_eq, index_normalize |]).
  apply Forall_nil_2.
Qed.

(** ** The status word and the status tags of a record *)




Lemma mapStatus_maskSum (metrics : gmap string iface)
    (tags : gmap string string) :
  (mapStatus metrics tags).1 = maskSum (Fields (statusString metrics)).
Proof.
  rewrite mapStatus_decodeTable.
  unfold decodeTable, maskSum, weight, statusTable, decodeStep.
  cbn [foldl foldr fmap list_fmap fst snd].
  repeat (destruct (Contains _ (Fields (statusString metrics))); cbn [fst snd]);
    reflexivity.
Qed.

Lemma maskSum_range (statuses : list string) : 0 ≤ maskSum statuses ≤ 255.
Proof.
  unfold maskSum, weight, statusTable. cbn [foldr fmap list_fmap fst snd].
  repeat (destruct (Contains _ statuses)); lia.
Qed.

(** X12: the mask is the sum of two to the power of the bit over the
    recognised tokens present in the status string, lies between 0 and
    255, and does not depend on the tag set passed in. *)
Theorem mapStatus_mask_sum (metrics : gmap string iface)
    (tags tags0 : gmap string string) :
  (mapStatus metrics tags).1 = maskSum (Fields (statusString metrics))
  ∧ 0 ≤ (mapStatus metrics tags).1 ≤ 255
  ∧ (mapStatus metrics tags).1 = (mapStatus metrics tags0).1.
Proof.
  split; [apply mapStatus_maskSum|]. split.
  - rewrite mapStatus_maskSum. apply maskSum_range.
  - by rewrite !mapStatus_maskSum.
Qed.

(** ** The conversation with the server *)

Lemma credentials_missing (u : Upsd) :
  negb (String.eqb (Username u) EmptyString)
  && negb (String.eqb (Password u) EmptyString) = false
  ↔ ¬ (Username u ≠ EmptyString ∧ Password u ≠ EmptyString).
Proof. rewrite <- credentials_given. by destruct (negb _ && negb _). Qed.

(** X4: what [fetchVariables] says to the server is always a prefix of
    connect, authenticate (when both user name and password are set),
    list, disconnect, and the whole of it exactly when the call returns
    the devices. It authenticates exactly when connect succeeded and both
    credentials are non-empty, and it lists exactly when connect
    succeeded and authenticate, if attempted, succeeded. *)
Theorem fetchVariables_conversation (u : Upsd) (srv : NutServer)
    (server : string) :
  let trace := (fetchVariables u srv server).1 in
  let connected :=
    Connect_reply srv server (ConnectionTimeout u) (OpTimeout u) = None in
  let credentials := Username u ≠ EmptyString ∧ Password u ≠ EmptyString in
  trace `prefix_of` conversation u server
  ∧ ((∃ devices, (fetchVariables u srv server).2 = inl devices)
     ↔ trace = conversation u server)
  ∧ (EvAuthenticate (Username u) (Password u) ∈ trace
     ↔ connected ∧ credentials)
  ∧ (EvGetUPSList ∈ trace
     ↔ connected
       ∧ (credentials →
          Authenticate_reply srv (Username u) (Password u) = None)).
Proof.
  intros trace connected credentials. subst trace connected credentials.
  unfold conversation, prelude, fetchVariables.
  destruct (Connect_reply _ _ _ _) as [e|] eqn:Hc.
  { cbn [fst snd].
    split; [by eexists|]. split; [|split].
    - split; [by intros [? ?]|]. destruct (negb _ && negb _); discriminate.
    - rewrite elem_of_cons, elem_of_nil. split; [|by intros [? _]].
      by intros [?|?].
    - rewrite elem_of_cons, elem_of_nil. split; [|by intros [? _]].
      by intros [?|?]. }
  destruct (negb _ && negb _) eqn:Hcred.
  - apply credentials_given in Hcred.
    destruct (Authenticate_reply _ _ _) as [e|] eqn:Ha; cbn [fst snd app].
    + split; [by eexists|]. split; [|split].
      * split; [by intros [? ?]|discriminate].
      * split; [done|]. intros _. apply list_elem_of_further, list_elem_of_here.
      * rewrite !elem_of_cons, elem_of_nil. split.
        -- by intros [?|[?|?]].
        -- intros [_ Hok]. by specialize (Hok Hcred).
    + destruct (GetUPSList_reply srv) as [upsList|e]; cbn [fst snd app].
      * split; [by exists []|]. split; [|split].
        -- split; [done|]. intros _. by eexists.
        -- split; [done|]. intros _.
           apply list_elem_of_further, list_elem_of_here.
        -- split; [done|]. intros _.
           do 2 apply list_elem_of_further. apply list_elem_of_here.
      * split; [by exists [EvDisconnect]|]. split; [|split].
        -- split; [by intros [? ?]|discriminate].
        -- split; [done|]. intros _.
           apply list_elem_of_further, list_elem_of_here.
        -- split; [done|]. intros _.
           do 2 apply list_elem_of_further. apply list_elem_of_here.
  - apply credentials_missing in Hcred.
    destruct (GetUPSList_reply srv) as [upsList|e]; cbn [fst snd app].
    + split; [by exists []|]. split; [|split].
      * split; [done|]. intros _. by eexists.
      * rewrite !elem_of_cons, elem_of_nil. split; [|by intros [_ ?]].
        by intros [?|[?|[?|?]]].
      * split; [done|]. intros _. apply list_elem_of_further, list_elem_of_here.
    + split; [by exists [EvDisconnect]|]. split; [|split].
      * split; [by intros [? ?]|discriminate].
      * rewrite !elem_of_cons, elem_of_nil. split; [|by intros [_ ?]].
        by intros [?|[?|?]].
      * split; [done|]. intros _. apply list_elem_of_further, list_elem_of_here.
Qed.

(** ** The device map *)

Lemma collect_lookup (upsList : list NutUPS) (name : string) :
  collect upsList !! name = lastDevice name upsList.
Proof.
  unfold collect.
  assert (Hgen : ∀ m : gmap string (list NutVariable),
    foldl (λ result ups, <[UPS_Name ups := UPS_Variables ups]> result)
          m upsList !! name
    = match lastDevice name upsList with
      | Some variables => Some variables
      | None => m !! name
      end).
  { induction upsList as [|x xs IH]; intros m; [done|].
    cbn [foldl]. rewrite IH. unfold lastDevice. rewrite filter_cons.
    destruct (decide (UPS_Name x = name)) as [<-|Hne].
    - destruct (filter _ xs) as [|y ys] eqn:Hf.
      + cbn. apply lookup_insert_eq.
      + rewrite last_cons_cons.
        destruct (last (y :: ys)) eqn:Hl; [done|]. by apply last_None in Hl.
    - destruct (last (filter _ xs)); [done|]. cbn. by apply lookup_insert_ne. }
  rewrite Hgen, lookup_empty. by destruct (lastDevice name upsList).
Qed.

(** X5: the devices [fetchVariables] returns are those the server
    listed, keyed by name: a name yields the variables of the last device
    listed under it, so of several devices with one name only the last
    is kept, and a name yields nothing exactly when no device has it. *)
Theorem fetchVariables_last_listed (u : Upsd) (srv : NutServer)
    (server : string) (name : string) :
  (∀ devices, (fetchVariables u srv server).2 = inl devices →
     ∃ upsList, GetUPSList_reply srv = inl upsList
       ∧ devices = collect upsList)
  ∧ (∀ upsList ups,
       collect (upsList ++ [ups])
       = <[UPS_Name ups := UPS_Variables ups]> (collect upsList))
  ∧ (∀ upsList, collect upsList !! name = lastDevice name upsList)
  ∧ (∀ upsList, collect upsList !! name = None
       ↔ ∀ ups, ups ∈ upsList → UPS_Name ups ≠ name).
Proof.
  split; [|split; [|split]].
  - intros devices. unfold fetchVariables.
    destruct (Connect_reply _ _ _ _); [done|].
    destruct (negb _ && negb _).
    + destruct (Authenticate_reply _ _ _); [done|].
      destruct (GetUPSList_reply srv) as [upsList|]; [|done].
      cbn [snd]. intros [= <-]. by exists upsList.
    + destruct (GetUPSList_reply srv) as [upsList|]; [|done].
      cbn [snd]. intros [= <-]. by exists upsList.
  - intros upsList ups. unfold collect. by rewrite foldl_app.
  - intros upsList. apply collect_lookup.
  - intros upsList. rewrite <- not_elem_of_dom, collect_dom, list_elem_of_fmap.
    split.
    + intros Hnone ups Hin Hname. apply Hnone. by exists ups.
    + intros Hall (ups & -> & Hin). by apply (Hall ups).
Qed.

(** ** One cycle *)

Lemma metricRecord_ups_name (name : string) (variables : list NutVariable) :
  (metricRecord name variables).2 !! "ups_name" = Some name.
Proof.
  unfold metricRecord. cbn [snd]. rewrite mapStatus_frame.
  - unfold baseTags. rewrite lookup_insert_ne by discriminate.
    apply lookup_insert_eq.
  - eapply (baseTags_keys name (normalize variables) _ name).
    unfold baseTags. rewrite lookup_insert_ne by discriminate.
    apply lookup_insert_eq.
Qed.

Lemma tagOf_ups_name_gatherAll (u : Upsd)
    (devices : list (string * list NutVariable)) :
  tagOf "ups_name" (gatherAll u devices).2 = Some <$> devices.*1.
Proof.
  unfold tagOf. rewrite emitted_gatherAll, <- !list_fmap_compose.
  apply list_fmap_ext. intros i [name variables] _. cbn.
  apply metricRecord_ups_name.
Qed.

(** X6: in a cycle whose listing succeeded, whatever order the device map
    is walked in, the ups_name tags of the records are the names of the
    map, each once: no two records of a cycle carry the same name. *)
Theorem Gather_distinct_names (range : RangeOrder) (u : Upsd)
    (srv : NutServer) (devices : gmap string (list NutVariable)) :
  range_ok range →
  (fetchVariables u srv (Server u)).2 = inl devices →
  tagOf "ups_name" (Gather range u srv).1.2
  ≡ₚ Some <$> (map_to_list devices).*1
  ∧ NoDup (tagOf "ups_name" (Gather range u srv).1.2).
Proof.
  intros Hrange Hfetch.
  assert (Htags : tagOf "ups_name" (Gather range u srv).1.2
                  = Some <$> (range devices).*1).
  { rewrite Gather_unfold, Hfetch. cbn [fst snd].
    rewrite <- tagOf_ups_name_gatherAll with (u := u). unfold tagOf.
    by rewrite emitted_app, emitted_fetchVariables. }
  rewrite Htags, (Hrange devices). split; [done|].
  apply NoDup_fmap_2; [apply _|]. apply NoDup_fst_map_to_list.
Qed.

Lemma Gather_distinct_names_witness :
  tagOf "ups_name" (Gather map_to_list new_Upsd (answering twoDevices)).1.2
  ≡ₚ Some <$> (map_to_list (collect twoDevices)).*1
  ∧ NoDup (tagOf "ups_name"
             (Gather map_to_list new_Upsd (answering twoDevices)).1.2).
Proof.
  apply (Gather_distinct_names map_to_list new_Upsd (answering twoDevices)
           (collect twoDevices)).
  - intros m. reflexivity.
  - reflexivity.
Defined.

(** X7: in the events of a cycle everything said to the server comes
    first and what goes to the log and the sink follows: the connection
    is released before the first record is handed over. *)
Theorem Gather_network_then_sink (range : RangeOrder) (u : Upsd)
    (srv : NutServer) :
  (Gather range u srv).1.2
  = (fetchVariables u srv (Server u)).1 ++ local (Gather range u srv).1.2
  ∧ local (fetchVariables u srv (Server u)).1 = [].
Proof.
  split; [|apply fetchVariables_network].
  rewrite Gather_unfold.
  pose proof (fetchVariables_network u srv (Server u)) as Hnet.
  destruct (fetchVariables u srv (Server u)) as [evs [devices|err]];
    cbn [fst snd] in *.
  - by rewrite local_app, Hnet, gatherAll_local.
  - by rewrite Hnet, app_nil_r.
Qed.

(** X8: polling changes nothing of a collector but its latch: server
    address, credentials and timeouts are after any sequence of cycles
    what they were before; and a cycle that returns an error leaves the
    collector as it was and sends nothing to the log or the sink. *)
Theorem poll_keeps_configuration (u : Upsd)
    (cycles : list (RangeOrder * NutServer)) :
  Server (poll u cycles).1 = Server u
  ∧ Username (poll u cycles).1 = Username u
  ∧ Password (poll u cycles).1 = Password u
  ∧ OpTimeout (poll u cycles).1 = OpTimeout u
  ∧ ConnectionTimeout (poll u cycles).1 = ConnectionTimeout u
  ∧ (∀ range srv, (Gather range u srv).2 ≠ None →
       (Gather range u srv).1.1 = u ∧ local (Gather range u srv).1.2 = []).
Proof.
  destruct (poll_gatherAll u cycles) as [-> _]. rewrite gatherAll_latch.
  repeat (split; [reflexivity|]).
  intros range srv. rewrite Gather_unfold.
  pose proof (fetchVariables_network u srv (Server u)) as Hnet.
  by destruct (fetchVariables u srv (Server u)) as [evs [devices|err]].
Qed.

Lemma emitted_Gather (range : RangeOrder) (u : Upsd) (srv : NutServer) :
  emitted (Gather range u srv).1.2
  = (λ d, metricRecord d.1 d.2) <$> cycleDevices u (range, srv).
Proof.
  rewrite Gather_unfold. unfold cycleDevices. cbn [fst snd].
  pose proof (emitted_fetchVariables u srv (Server u)) as Hnone.
  destruct (fetchVariables u srv (Server u)) as [evs [devices|err]];
    cbn [fst snd] in *; [|done].
  by rewrite emitted_app, Hnone, emitted_gatherAll.
Qed.

(** X9: the records of a sequence of cycles are those each cycle gives
    when run alone on the collector as it was at the start, one cycle
    after the other: what earlier cycles did has no effect on the records
    of a later one. *)
Theorem poll_records_per_cycle (u : Upsd)
    (cycles : list (RangeOrder * NutServer)) :
  emitted (poll u cycles).2
  = concat ((λ cycle, emitted (Gather cycle.1 u cycle.2).1.2) <$> cycles).
Proof.
  rewrite <- emitted_local.
  destruct (poll_gatherAll u cycles) as [_ ->].
  rewrite emitted_gatherAll. unfold encounters.
  induction cycles as [|[range srv] rest IH]; [done|].
  rewrite !fmap_cons. cbn [concat fst snd].
  by rewrite fmap_app, IH, emitted_Gather.
Qed.

(** ** More on the status decoder *)

Lemma same_tokens_check (l1 l2 : list string) :
  forallb (λ token, Bool.eqb (Contains token l1) (Contains token l2))
          statusTokens = true →
  ∀ token, token ∈ statusTokens → (token ∈ l1 ↔ token ∈ l2).
Proof.
  intros Hall token Hin. rewrite forallb_forall in Hall.
  specialize (Hall token (proj1 (list_elem_of_In _ _) Hin)).
  apply Bool.eqb_prop in Hall. by rewrite <- !Contains_true, Hall.
Qed.

(** X10: the decoder looks at the eight recognised tokens only: two
    status strings that agree on which of them occur among their fields
    give the same mask and tags, whatever else they contain. *)
Theorem mapStatus_recognised_tokens_only (s1 s2 : string)
    (metrics : gmap string iface) (tags : gmap string string) :
  (∀ token, token ∈ statusTokens →
     (token ∈ Fields s1 ↔ token ∈ Fields s2)) →
  mapStatus (<["ups.status" := VString s1]> metrics) tags
  = mapStatus (<["ups.status" := VString s2]> metrics) tags.
Proof.
  intros Hsame. rewrite !mapStatus_decodeTable, !statusString_insert.
  by apply decodeTable_same_set.
Qed.

Lemma mapStatus_recognised_tokens_only_witness :
  mapStatus (<["ups.status" := VString "ol FSD OL BYPASS OLD"]> ∅) ∅
  = mapStatus (<["ups.status" := VString "OL"]> ∅) ∅.
Proof.
  apply (mapStatus_recognised_tokens_only "ol FSD OL BYPASS OLD" "OL" ∅ ∅).
  apply same_tokens_check. reflexivity.
Defined.

Lemma statusTable_tokens (e : string * Z) :
  In e statusTable → e.1 ∈ statusTokens.
Proof.
  unfold statusTable, statusTokens. cbn [In].
  intros H. repeat (destruct H as [<-|H]; [cbn [fst]; elem_of_list|]). done.
Qed.

Lemma existsb_ext_in {A} (f g : A → bool) (l : list A) :
  (∀ x, In x l → f x = g x) → existsb f l = existsb g l.
Proof.
  induction l as [|x l IH]; [done|]. intros Hfg. cbn [existsb].
  rewrite (Hfg x) by by left. rewrite IH; [done|].
  intros y Hy. apply Hfg. by right.
Qed.

Lemma existsb_orb {A} (f g : A → bool) (l : list A) :
  existsb (λ x, f x || g x) l = existsb f l || existsb g l.
Proof.
  induction l as [|x l IH]; [done|]. cbn [existsb]. rewrite IH.
  destruct (f x), (g x), (existsb f l), (existsb g l); reflexivity.
Qed.

Lemma existsb_union (statuses statuses1 statuses2 : list string)
    (q : string * Z → bool) :
  (∀ token, token ∈ statusTokens →
     (token ∈ statuses ↔ token ∈ statuses1 ∨ token ∈ statuses2)) →
  existsb (λ e, Contains e.1 statuses && q e) statusTable
  = existsb (λ e, Contains e.1 statuses1 && q e) statusTable
    || existsb (λ e, Contains e.1 statuses2 && q e) statusTable.
Proof.
  intros Hunion. rewrite <- existsb_orb. apply existsb_ext_in.
  intros e He. rewrite <- andb_orb_distrib_l. f_equal.
  apply statusTable_tokens, Hunion in He.
  rewrite !Contains_spec.
  destruct (decide (e.1 ∈ statuses1)) as [H1|H1],
           (decide (e.1 ∈ statuses2)) as [H2|H2];
    rewrite ?(bool_decide_eq_true_2 _ H1), ?(bool_decide_eq_true_2 _ H2),
      ?(bool_decide_eq_false_2 _ H1), ?(bool_decide_eq_false_2 _ H2);
    cbn [orb];
    [apply bool_decide_eq_true_2 .. | apply bool_decide_eq_false_2]; tauto.
Qed.

(** X11: decoding a status whose recognised tokens are those of two
    others taken together gives the bitwise or of the two masks, and the
    tags that decoding the one and then the other onto the same tag set
    leaves. *)
Theorem mapStatus_union (metrics metrics1 metrics2 : gmap string iface)
    (tags : gmap string string) :
  (∀ token, token ∈ statusTokens →
     (token ∈ Fields (statusString metrics)
      ↔ token ∈ Fields (statusString metrics1)
        ∨ token ∈ Fields (statusString metrics2))) →
  (mapStatus metrics tags).1
  = Z.lor (mapStatus metrics1 tags).1 (mapStatus metrics2 tags).1
  ∧ (mapStatus metrics tags).2
    = (mapStatus metrics2 (mapStatus metrics1 tags).2).2.
Proof.
  intros Hunion. split.
  - apply Z.bits_inj'. intros i _.
    rewrite Z.lor_spec, !mapStatus_mask_bit. by apply existsb_union.
  - apply map_eq. intros k. rewrite !mapStatus_tag_lookup.
    rewrite (existsb_union _ _ _ (λ e, String.eqb (tagName e.1) k) Hunion).
    by destruct (existsb _ statusTable), (existsb _ statusTable).
Qed.

Lemma union_tokens_check (l l1 l2 : list string) :
  forallb (λ token, Bool.eqb (Contains token l)
                             (Contains token l1 || Contains token l2))
          statusTokens = true →
  ∀ token, token ∈ statusTokens → (token ∈ l ↔ token ∈ l1 ∨ token ∈ l2).
Proof.
  intros Hall token Hin. rewrite forallb_forall in Hall.
  specialize (Hall token (proj1 (list_elem_of_In _ _) Hin)).
  apply Bool.eqb_prop in Hall.
  by rewrite <- !Contains_true, Hall, orb_true_iff.
Qed.

Lemma mapStatus_union_witness :
  (mapStatus {[ "ups.status" := VString "OB LB RB" ]} ∅).1
  = Z.lor (mapStatus {[ "ups.status" := VString "OB LB" ]} ∅).1
          (mapStatus {[ "ups.status" := VString "RB OB" ]} ∅).1
  ∧ (mapStatus {[ "ups.status" := VString "OB LB RB" ]} ∅).2
    = (mapStatus {[ "ups.status" := VString "RB OB" ]}
         (mapStatus {[ "ups.status" := VString "OB LB" ]} ∅).2).2.
Proof.
  apply (mapStatus_union {[ "ups.status" := VString "OB LB RB" ]}
           {[ "ups.status" := VString "OB LB" ]}
           {[ "ups.status" := VString "RB OB" ]} ∅).
  apply union_tokens_check. reflexivity.
Defined.

Lemma mapStatus_layouts_witness :
  mapStatus (<["ups.status" := VString (layout layoutA.1 layoutA.2)]> ∅) ∅
  = mapStatus (<["ups.status" := VString (layout layoutB.1 layoutB.2)]> ∅) ∅.
Proof.
  apply (mapStatus_layouts layoutA.1 layoutB.1 layoutA.2 layoutB.2 ∅ ∅).
  - split; [reflexivity|]. split.
    + repeat constructor; discriminate.
    + cbn. split; [discriminate|exact I].
  - split; [reflexivity|]. split.
    + repeat constructor; discriminate.
    + cbn. repeat split; discriminate.
  - intros token. cbn [layoutA layoutB fst snd fmap list_fmap].
    rewrite !elem_of_cons, !elem_of_nil. tauto.
Defined.

(** ** The warning of one call *)

Lemma runtime_is_int64_reports (variables : list NutVariable) :
  runtime_is_int64 variables = reports_int64 variables.
Proof.
  unfold runtime_is_int64, reports_int64. rewrite index_normalize.
  destruct (lastValue "battery.runtime" variables) as [[]|]; reflexivity.
Qed.

(** X14: a call of [gatherUps] logs the warning exactly when the latch is
    down and the value the device reports as battery.runtime is not an
    int64, which includes a device that reports no battery.runtime; it
    leaves the latch up in that case and as it was otherwise; and the
    record it emits does not depend on the collector. *)
Theorem gatherUps_warns_iff (u : Upsd) (name : string)
    (variables : list NutVariable) :
  warnings (gatherUps u name variables).2
  = (if negb (batteryRuntimeTypeWarningIssued u)
        && negb (reports_int64 variables)
     then [runtimeWarning] else [])
  ∧ batteryRuntimeTypeWarningIssued (gatherUps u name variables).1
    = batteryRuntimeTypeWarningIssued u || negb (reports_int64 variables)
  ∧ ((∀ v, v ∈ variables → Name v ≠ "battery.runtime") →
     reports_int64 variables = false)
  ∧ (∀ u0, emitted (gatherUps u name variables).2
           = emitted (gatherUps u0 name variables).2).
Proof.
  rewrite <- runtime_is_int64_reports. split; [|split; [|split]].
  - rewrite gatherUps_unfold. cbn [snd]. unfold warnings, metricEvent.
    rewrite omap_app.
    by destruct (runtime_is_int64 variables),
                (batteryRuntimeTypeWarningIssued u).
  - by rewrite gatherUps_unfold.
  - intros Habsent. apply lastValue_None in Habsent.
    rewrite runtime_is_int64_reports. unfold reports_int64. by rewrite Habsent.
  - intros u0. by rewrite !emitted_gatherUps.
Qed.
